(** * Budget-status reconciliation service (multi_app.py)

    A shallow embedding of the Flask/Asana connector: the remote store and
    its client calls, the helper functions, [update_project_metrics],
    [determine_projects_to_update], [handle_webhook] and the handlers of
    the other endpoints, followed by the properties of the aggregation, of
    the status record, of a pass and of the endpoints.

    How the program is modelled:
    - a Python computation is a function from the world to a result (a
      value or a raised exception) and the world after it; [try]/[except]
      is [try_except];
    - the Asana service is a store of projects and tasks; each client call
      counts, and the environment decides which calls fail; a call that
      fails leaves the store as it was;
    - a listing is read when the call is made;
    - dictionaries are records, with an optional field where the code tests
      for the key; a dictionary used as a map is a [gmap];
    - costs are exact rationals, and the format specifications [.2f] and
      [.1f] are applied to the exact value;
    - the text of an exception is not modelled: a body that carries one is
      a constructor without it;
    - the webhooks of the service are read by [register_webhook] only,
      which runs in a world that adds them. *)

From Stdlib Require Import Ascii String QArith Qabs.
From stdpp Require Import gmap strings list pretty.

(** ** Constants of the module *)

Definition TEMPLATE_PROJECT_ID : string := "1209353707682767".
Definition STATUS_TASK_NAME : string := "Project Status".
Definition ESTIMATED_COST_FIELD : string := "Budget".
Definition ACTUAL_COST_FIELD : string := "Actual Cost".
Definition STATUS_TASK_NOTES : string :=
  "This task contains summary information about the project budget.".

(** ** Python values

    A value that is [None] or a string is an [option string]; [truthy] is
    Python's truth test on it ([if x], [if not x]): [None] and the empty
    string are false. *)

Definition truthy (x : option string) : bool :=
  match x with
  | Some s => negb (String.eqb s "")
  | None => false
  end.

(** [a > b] on numbers. Costs are JSON numbers; they are modelled as exact
    rationals. *)
Definition Qgtb (a b : Q) : bool := negb (Qle_bool a b).

(** ** The remote store

    What the Asana service holds, as far as this program reads or writes it. *)

(** [setting['custom_field']] of a custom field setting of a project. *)
Record custom_field := { cf_name : string; cf_gid : string }.

(** An entry of [task_details['custom_fields']]; [number_value] may be
    [None]. *)
Record field_value := { fv_gid : string; fv_number_value : option Q }.

(** A task as [client.tasks.find_by_id] returns it. The key
    ['custom_fields'] may be missing; ['projects'] lists the gids of the
    projects the task belongs to. *)
Record task := {
  t_gid : string;
  t_name : string;
  t_projects : list string;
  t_custom_fields : option (list field_value);
  t_notes : string
}.

(** A task as a listing returns it: the compact form, gid and name. *)
Record task_compact := { tc_gid : string; tc_name : string }.

Definition compact (t : task) : task_compact :=
  {| tc_gid := t_gid t; tc_name := t_name t |}.

(** A project; the key ['name'] may be missing. *)
Record project := {
  p_gid : string;
  p_name : option string;
  p_workspace : string;
  p_settings : list custom_field
}.

(** The world a request runs in: the remote store, the process-wide
    [WEBHOOK_SECRET] dictionary, and what the environment decides: which
    client call fails ([w_faults], indexed by the number of calls made so
    far), which gid the service gives to the next created task
    ([w_new_gid]) and what [datetime.now()] formats to ([w_clock]). *)
Record world := {
  w_projects : list project;
  w_tasks : list task;
  WEBHOOK_SECRET : gmap string string;
  w_faults : nat -> bool;
  w_calls : nat;
  w_new_gid : nat -> string;
  w_created : nat;
  w_clock : nat -> string;
  w_ticks : nat
}.

Definition set_tasks (ts : list task) (w : world) : world :=
  {| w_projects := w_projects w; w_tasks := ts;
     WEBHOOK_SECRET := WEBHOOK_SECRET w;
     w_faults := w_faults w; w_calls := w_calls w;
     w_new_gid := w_new_gid w; w_created := w_created w;
     w_clock := w_clock w; w_ticks := w_ticks w |}.

Definition set_secret (d : gmap string string) (w : world) : world :=
  {| w_projects := w_projects w; w_tasks := w_tasks w;
     WEBHOOK_SECRET := d;
     w_faults := w_faults w; w_calls := w_calls w;
     w_new_gid := w_new_gid w; w_created := w_created w;
     w_clock := w_clock w; w_ticks := w_ticks w |}.

Definition set_calls (n : nat) (w : world) : world :=
  {| w_projects := w_projects w; w_tasks := w_tasks w;
     WEBHOOK_SECRET := WEBHOOK_SECRET w;
     w_faults := w_faults w; w_calls := n;
     w_new_gid := w_new_gid w; w_created := w_created w;
     w_clock := w_clock w; w_ticks := w_ticks w |}.

Definition set_created (n : nat) (w : world) : world :=
  {| w_projects := w_projects w; w_tasks := w_tasks w;
     WEBHOOK_SECRET := WEBHOOK_SECRET w;
     w_faults := w_faults w; w_calls := w_calls w;
     w_new_gid := w_new_gid w; w_created := n;
     w_clock := w_clock w; w_ticks := w_ticks w |}.

Definition set_ticks (n : nat) (w : world) : world :=
  {| w_projects := w_projects w; w_tasks := w_tasks w;
     WEBHOOK_SECRET := WEBHOOK_SECRET w;
     w_faults := w_faults w; w_calls := w_calls w;
     w_new_gid := w_new_gid w; w_created := w_created w;
     w_clock := w_clock w; w_ticks := n |}.

(** ** Computations

    A Python computation either returns a value or raises; in both cases it
    may have changed the world. *)

Inductive result (A : Type) : Type :=
| Ok (a : A)
| Raise.
Arguments Ok {A} a.
Arguments Raise {A}.

Definition M (A : Type) : Type := world -> result A * world.

Definition ret {A} (a : A) : M A := fun w => (Ok a, w).

Definition bind {A B} (m : M A) (k : A -> M B) : M B :=
  fun w =>
    match m w with
    | (Ok a, w') => k a w'
    | (Raise, w') => (Raise, w')
    end.

(** [try: m except Exception: handler] *)
Definition try_except {A} (m : M A) (handler : M A) : M A :=
  fun w =>
    match m w with
    | (Ok a, w') => (Ok a, w')
    | (Raise, w') => handler w'
    end.

Declare Scope py_scope.
Delimit Scope py_scope with py.
Notation "'let*' x ':=' m 'in' k" := (bind m (fun x => k))
  (at level 10, x pattern, m at level 100, k at level 200) : py_scope.
Open Scope py_scope.

(** ** The client

    Every call of the Asana client is a request to the service and may fail:
    the call numbered [w_calls] raises when [w_faults] says so, and then has
    no effect on the store. A call that does not fail is served from the
    store. *)

Definition tick (w : world) : world := set_calls (S (w_calls w)) w.

Definition api_call {A} (serve : M A) : M A :=
  fun w => if w_faults w (w_calls w) then (Raise, tick w) else serve (tick w).

Definition lookup_project (pid : string) (w : world) : option project :=
  List.find (fun p => String.eqb (p_gid p) pid) (w_projects w).

Definition lookup_task (tid : string) (w : world) : option task :=
  List.find (fun t => String.eqb (t_gid t) tid) (w_tasks w).

Definition member (x : string) (l : list string) : bool :=
  existsb (String.eqb x) l.

Definition project_tasks (pid : string) (w : world) : list task :=
  List.filter (fun t => member pid (t_projects t)) (w_tasks w).

(** [client.projects.find_by_id(project_id)]; an unknown id is an error. *)
Definition projects_find_by_id (pid : string) : M project :=
  api_call (fun w =>
    match lookup_project pid w with
    | Some p => (Ok p, w)
    | None => (Raise, w)
    end).

(** [client.projects.find_all({'workspace': workspace_id})] *)
Definition projects_find_all (workspace_id : string) : M (list project) :=
  api_call (fun w =>
    (Ok (List.filter (fun p => String.eqb (p_workspace p) workspace_id)
           (w_projects w)), w)).

(** [client.custom_field_settings.find_by_project(project_id)] *)
Definition custom_field_settings_find_by_project (pid : string)
  : M (list custom_field) :=
  api_call (fun w =>
    match lookup_project pid w with
    | Some p => (Ok (p_settings p), w)
    | None => (Raise, w)
    end).

(** [client.tasks.find_by_project(project_id)]: the tasks of the project in
    compact form, read when the call is made. *)
Definition tasks_find_by_project (pid : string) : M (list task_compact) :=
  api_call (fun w => (Ok (map compact (project_tasks pid w)), w)).

(** [client.tasks.find_by_id(task_gid)]; an unknown gid is an error. *)
Definition tasks_find_by_id (tid : string) : M task :=
  api_call (fun w =>
    match lookup_task tid w with
    | Some t => (Ok t, w)
    | None => (Raise, w)
    end).

(** [client.tasks.create_in_workspace({...})]: the service picks the gid and
    adds the task to the store. *)
Definition tasks_create_in_workspace
    (name : string) (projects : list string) (workspace : string)
    (notes : string) : M task :=
  api_call (fun w =>
    let t := {| t_gid := w_new_gid w (w_created w); t_name := name;
                t_projects := projects; t_custom_fields := Some [];
                t_notes := notes |} in
    (Ok t, set_created (S (w_created w)) (set_tasks (w_tasks w ++ [t]) w))).

Definition write_notes (tid notes : string) (t : task) : task :=
  if String.eqb (t_gid t) tid then
    {| t_gid := t_gid t; t_name := t_name t; t_projects := t_projects t;
       t_custom_fields := t_custom_fields t; t_notes := notes |}
  else t.

(** [client.tasks.update(task_gid, {'notes': notes})]; an unknown gid is an
    error. *)
Definition tasks_update (tid notes : string) : M unit :=
  api_call (fun w =>
    match lookup_task tid w with
    | Some _ => (Ok tt, set_tasks (map (write_notes tid notes) (w_tasks w)) w)
    | None => (Raise, w)
    end).

(** [datetime.now().strftime("%Y-%m-%d %H:%M:%S")] *)
Definition now : M string :=
  fun w => (Ok (w_clock w (w_ticks w)), set_ticks (S (w_ticks w)) w).

(** ** Helpers of the module *)

(** [get_project_workspace] *)
Definition get_project_workspace (project_id : string) : M (option string) :=
  try_except
    (let* project := projects_find_by_id project_id in
     ret (Some (p_workspace project)))
    (ret None).

(** [get_all_projects_in_workspace] *)
Definition get_all_projects_in_workspace (workspace_id : string)
  : M (list project) :=
  try_except (projects_find_all workspace_id) (ret []).

(** The body of the loop of [get_custom_fields] over the settings. *)
Definition scan_setting (gids : option string * option string)
    (setting : custom_field) : option string * option string :=
  if String.eqb (cf_name setting) ESTIMATED_COST_FIELD then
    (Some (cf_gid setting), snd gids)
  else if String.eqb (cf_name setting) ACTUAL_COST_FIELD then
    (fst gids, Some (cf_gid setting))
  else gids.

Definition resolve_fields (settings : list custom_field)
  : option string * option string :=
  fold_left scan_setting settings (None, None).

(** [get_custom_fields] *)
Definition get_custom_fields (project_id : string)
  : M (option string * option string) :=
  try_except
    (let* custom_field_settings :=
       custom_field_settings_find_by_project project_id in
     ret (resolve_fields custom_field_settings))
    (ret (None, None)).

(** The loop of [find_status_task]: the gid of the first task with the
    reserved name. *)
Definition first_status_task (tasks : list task_compact) : option string :=
  option_map tc_gid
    (List.find (fun task => String.eqb (tc_name task) STATUS_TASK_NAME) tasks).

(** [find_status_task] *)
Definition find_status_task (project_id : string) : M (option string) :=
  try_except
    (let* tasks := tasks_find_by_project project_id in
     ret (first_status_task tasks))
    (ret None).

(** [create_status_task] *)
Definition create_status_task (project_id : string) : M (option string) :=
  try_except
    (let* workspace_id := get_project_workspace project_id in
     match workspace_id with
     | Some ws =>
         if truthy workspace_id then
           let* task :=
             tasks_create_in_workspace STATUS_TASK_NAME [project_id] ws
               STATUS_TASK_NOTES in
           ret (Some (t_gid task))
         else ret None
     | None => ret None
     end)
    (ret None).

(** ** Aggregation ([update_project_metrics], the loop over the tasks) *)

(** An entry of [overbudget_tasks]. *)
Record overbudget_item := {
  ob_name : string;
  ob_estimated : Q;
  ob_actual : Q;
  ob_difference : Q
}.

(** The running totals of the loop. *)
Record totals := {
  total_estimated : Q;
  total_actual : Q;
  completed_tasks : nat;
  total_tasks : nat;
  overbudget_tasks : list overbudget_item
}.

Definition no_totals : totals :=
  {| total_estimated := 0; total_actual := 0; completed_tasks := 0;
     total_tasks := 0; overbudget_tasks := [] |}.

(** The body of the loop over [task_details['custom_fields']]: the pair is
    [(estimated_cost, actual_cost)]. *)
Definition read_field (estimated_cost_gid actual_cost_gid : string)
    (costs : Q * Q) (field : field_value) : Q * Q :=
  match fv_number_value field with
  | Some number_value =>
      if String.eqb (fv_gid field) estimated_cost_gid then
        (number_value, snd costs)
      else if String.eqb (fv_gid field) actual_cost_gid then
        (fst costs, number_value)
      else costs
  | None => costs
  end.

(** Extract costs from custom fields: both start at 0. *)
Definition extract_costs (estimated_cost_gid actual_cost_gid : string)
    (task_details : task) : Q * Q :=
  match t_custom_fields task_details with
  | Some fields =>
      fold_left (read_field estimated_cost_gid actual_cost_gid) fields
        (0%Q, 0%Q)
  | None => (0%Q, 0%Q)
  end.

(** Add one task to the totals. *)
Definition add_to_totals (acc : totals) (name : string)
    (estimated_cost actual_cost : Q) : totals :=
  let total_estimated' := (total_estimated acc + estimated_cost)%Q in
  let total_tasks' := S (total_tasks acc) in
  if Qgtb actual_cost 0 then
    {| total_estimated := total_estimated';
       total_actual := (total_actual acc + actual_cost)%Q;
       completed_tasks := S (completed_tasks acc);
       total_tasks := total_tasks';
       overbudget_tasks :=
         if Qgtb actual_cost estimated_cost then
           overbudget_tasks acc ++
             [{| ob_name := name; ob_estimated := estimated_cost;
                 ob_actual := actual_cost;
                 ob_difference := (actual_cost - estimated_cost)%Q |}]
         else overbudget_tasks acc |}
  else
    {| total_estimated := total_estimated';
       total_actual := total_actual acc;
       completed_tasks := completed_tasks acc;
       total_tasks := total_tasks';
       overbudget_tasks := overbudget_tasks acc |}.

(** One turn of the loop [for task in tasks]. *)
Definition process_task (status_task_gid estimated_cost_gid actual_cost_gid
    : string) (acc : totals) (task : task_compact) : M totals :=
  if String.eqb (tc_gid task) status_task_gid then ret acc
  else
    let* task_details := tasks_find_by_id (tc_gid task) in
    let costs := extract_costs estimated_cost_gid actual_cost_gid
                   task_details in
    ret (add_to_totals acc (tc_name task) (fst costs) (snd costs)).

(** The loop [for task in tasks]. *)
Fixpoint process_tasks (status_task_gid estimated_cost_gid actual_cost_gid
    : string) (tasks : list task_compact) (acc : totals) : M totals :=
  match tasks with
  | [] => ret acc
  | task :: rest =>
      let* acc' := process_task status_task_gid estimated_cost_gid
                     actual_cost_gid acc task in
      process_tasks status_task_gid estimated_cost_gid actual_cost_gid
        rest acc'
  end.

Definition Q_of_nat (n : nat) : Q := inject_Z (Z.of_nat n).

(** [percent_complete] and [budget_progress] *)
Definition percent_complete (acc : totals) : Q :=
  if (0 <? total_tasks acc)%nat then
    (Q_of_nat (completed_tasks acc) / Q_of_nat (total_tasks acc) * 100)%Q
  else 0%Q.

Definition budget_progress (acc : totals) : Q :=
  if Qgtb (total_estimated acc) 0 then
    (total_actual acc / total_estimated acc * 100)%Q
  else 0%Q.

(** ** Rendering (the f-strings of [update_project_metrics]) *)

Definition nl : string := String "010"%char EmptyString.

(** Nearest integer, ties to the even one. *)
Definition round_half_even (x : Q) : Z :=
  let n := Qnum x in
  let d := Z.pos (Qden x) in
  let q := (n / d)%Z in
  let r := (2 * (n mod d))%Z in
  if (r <? d)%Z then q
  else if (d <? r)%Z then (q + 1)%Z
  else if Z.even q then q else (q + 1)%Z.

Definition zero_pad (width : nat) (s : string) : string :=
  String.concat "" (repeat "0"%string (width - String.length s)) +:+ s.

(** The format specification [.{digits}f] applied to the exact value of a
    number: sign, integer part, point, [digits] decimals. *)
Definition format_f (digits : nat) (x : Q) : string :=
  let scale := (10 ^ Z.of_nat digits)%Z in
  let m := round_half_even (Qabs x * inject_Z scale)%Q in
  (if Qgtb 0 x then "-" else "")
    +:+ pretty (m / scale)%Z +:+ "."
    +:+ zero_pad digits (pretty (m mod scale)%Z).

(** One line of the over-budget section. *)
Definition render_item (item : overbudget_item) : string :=
  "- ❗ " +:+ ob_name item
    +:+ ": Estimated $" +:+ format_f 2 (ob_estimated item)
    +:+ ", Actual $" +:+ format_f 2 (ob_actual item)
    +:+ " ($" +:+ format_f 2 (ob_difference item) +:+ " over budget)" +:+ nl.

(** [sum(item['difference'] for item in overbudget_tasks)] *)
Definition total_overbudget (items : list overbudget_item) : Q :=
  fold_left (fun s item => (s + ob_difference item)%Q) items 0%Q.

(** The over-budget section, added only when the list is not empty. *)
Definition render_overbudget (items : list overbudget_item) : string :=
  match items with
  | [] => ""
  | _ =>
      "## ⚠️ Overbudget Items" +:+ nl
        +:+ String.concat "" (map render_item items)
        +:+ nl +:+ "⚠️ Total Amount Over Budget: $"
        +:+ format_f 2 (total_overbudget items) +:+ nl
  end.

(** The summary before the timestamp is added. *)
Definition render_body (project_name : string) (acc : totals) : string :=
  "# 🏗️ " +:+ project_name +:+ " Budget Summary" +:+ nl
    +:+ nl
    +:+ "## 💰 Overall Budget" +:+ nl
    +:+ "- 💵 Total Estimated Budget: $"
    +:+ format_f 2 (total_estimated acc) +:+ nl
    +:+ "- 💸 Total Actual Cost Incurred: $"
    +:+ format_f 2 (total_actual acc) +:+ nl
    +:+ "- 🎯 Remaining Budget: $"
    +:+ format_f 2 (total_estimated acc - total_actual acc)%Q +:+ nl
    +:+ "- 📊 Budget Utilization: "
    +:+ format_f 1 (budget_progress acc) +:+ "%" +:+ nl
    +:+ nl
    +:+ "## 📋 Progress" +:+ nl
    +:+ "- 📝 Total Tasks: " +:+ pretty (total_tasks acc) +:+ nl
    +:+ "- ✅ Completed Tasks (with actual costs): "
    +:+ pretty (completed_tasks acc) +:+ nl
    +:+ "- 🚧 Project Completion: "
    +:+ format_f 1 (percent_complete acc) +:+ "%" +:+ nl
    +:+ nl
    +:+ render_overbudget (overbudget_tasks acc).

(** The last-updated line. *)
Definition render_timestamp (current_time : string) : string :=
  nl +:+ nl +:+ "🕒 Last Updated: " +:+ current_time.

Definition render_summary (project_name : string) (acc : totals)
    (current_time : string) : string :=
  render_body project_name acc +:+ render_timestamp current_time.

(** ** [update_project_metrics] *)

Definition update_project_metrics (project_id : string) : M bool :=
  try_except
    (let* current_time := now in
     let* gids := get_custom_fields project_id in
     match gids with
     | (Some estimated_cost_gid, Some actual_cost_gid) =>
         if negb (truthy (fst gids)) || negb (truthy (snd gids)) then
           ret false
         else
           let* tasks := tasks_find_by_project project_id in
           let* found := find_status_task project_id in
           let* created :=
             (if negb (truthy found) then create_status_task project_id
              else ret found) in
           match created with
           | Some status_task_gid =>
               if negb (truthy created) then ret false
               else
                 let* acc :=
                   process_tasks status_task_gid estimated_cost_gid
                     actual_cost_gid tasks no_totals in
                 let* project_info := projects_find_by_id project_id in
                 let project_name :=
                   default "Construction Project"%string
                     (p_name project_info) in
                 let summary :=
                   render_summary project_name acc current_time in
                 let* _ := tasks_update status_task_gid summary in
                 ret true
           | None => ret false
           end
     | _ => ret false
     end)
    (ret false).

(** ** [determine_projects_to_update] *)

(** [event['resource']]: both keys may be missing. *)
Record resource := {
  resource_type : option string;
  resource_gid : option string
}.

(** An entry of [event_data['events']]; the key ['resource'] may be
    missing. *)
Record event := { ev_resource : option resource }.

(** The JSON body of an event delivery; the key ['events'] may be
    missing. *)
Record event_data := { events : option (list event) }.

(** The loop [for project in task['projects']]. *)
Fixpoint add_task_projects (projects : list string)
    (projects_to_update : list string) : M (list string) :=
  match projects with
  | [] => ret projects_to_update
  | project_id :: rest =>
      if member project_id projects_to_update then
        add_task_projects rest projects_to_update
      else
        let* gids := get_custom_fields project_id in
        if truthy (fst gids) && truthy (snd gids) then
          add_task_projects rest (projects_to_update ++ [project_id])
        else add_task_projects rest projects_to_update
  end.

(** ['resource' in event and
     event.get('resource', {}).get('resource_type') == 'task'] *)
Definition is_task_event (e : event) : bool :=
  match ev_resource e with
  | Some r => bool_decide (resource_type r = Some "task"%string)
  | None => false
  end.

(** [event.get('resource', {}).get('gid')] *)
Definition event_task_gid (e : event) : option string :=
  match ev_resource e with
  | Some r => resource_gid r
  | None => None
  end.

(** The loop [for event in event_data['events']]. Inside the [try] only the
    first call can raise, so the handler finds the list as it was. *)
Fixpoint scan_events (evs : list event) (projects_to_update : list string)
  : M (list string) :=
  match evs with
  | [] => ret projects_to_update
  | e :: rest =>
      if is_task_event e then
        match event_task_gid e with
        | Some task_gid =>
            if truthy (event_task_gid e) then
              let* projects_to_update' :=
                try_except
                  (let* task := tasks_find_by_id task_gid in
                   add_task_projects (t_projects task) projects_to_update)
                  (ret projects_to_update) in
              scan_events rest projects_to_update'
            else scan_events rest projects_to_update
        | None => scan_events rest projects_to_update
        end
      else scan_events rest projects_to_update
  end.

(** The loop [for project in all_projects] of the fallback. *)
Fixpoint keep_eligible (all_projects : list project)
    (projects_to_update : list string) : M (list string) :=
  match all_projects with
  | [] => ret projects_to_update
  | p :: rest =>
      let* gids := get_custom_fields (p_gid p) in
      if truthy (fst gids) && truthy (snd gids) then
        keep_eligible rest (projects_to_update ++ [p_gid p])
      else keep_eligible rest projects_to_update
  end.

(** The first half: the projects named by the event. [event_data] is
    [None] for a manual trigger and for a body that is not JSON. *)
Definition event_projects (data : option event_data) : M (list string) :=
  match data with
  | Some d =>
      match events d with
      | Some evs => scan_events evs []
      | None => ret []
      end
  | None => ret []
  end.

(** The second half, run when the first found nothing: every project of
    the workspace of the template project that has the custom fields. *)
Definition workspace_projects : M (list string) :=
  let* workspace_id := get_project_workspace TEMPLATE_PROJECT_ID in
  match workspace_id with
  | Some ws =>
      if truthy workspace_id then
        let* all_projects := get_all_projects_in_workspace ws in
        keep_eligible all_projects []
      else ret []
  | None => ret []
  end.

Definition determine_projects_to_update (data : option event_data)
  : M (list string) :=
  let* projects_to_update := event_projects data in
  match projects_to_update with
  | [] => workspace_projects
  | _ => ret projects_to_update
  end.

(** ** [handle_webhook] *)

Definition ascii_lower (c : ascii) : ascii :=
  let n := nat_of_ascii c in
  if (65 <=? n)%nat && (n <=? 90)%nat then ascii_of_nat (n + 32) else c.

Fixpoint lower (s : string) : string :=
  match s with
  | EmptyString => EmptyString
  | String c rest => String (ascii_lower c) (lower rest)
  end.

(** Header access of the web framework: names match without regard to
    case, the first value is returned. *)
Definition header_get (name : string) (headers : list (string * string))
  : option string :=
  option_map snd
    (List.find (fun kv => String.eqb (lower (fst kv)) (lower name)) headers).

(** A POST request on [/webhook]. *)
Record http_request := {
  req_headers : list (string * string);
  req_json : option event_data
}.

(** The JSON bodies the handler answers with. *)
Inductive json_body : Type :=
| JEmpty
| JReceived (updated_projects : gmap string bool)
| JError.

(** A response: status code, the headers the handler sets, body. *)
Record http_response := {
  resp_status : nat;
  resp_headers : list (string * string);
  resp_body : json_body
}.

(** The loop [for project_id in projects_to_update] of the handlers. *)
Fixpoint update_projects (projects_to_update : list string)
    (update_results : gmap string bool) : M (gmap string bool) :=
  match projects_to_update with
  | [] => ret update_results
  | project_id :: rest =>
      let* success := update_project_metrics project_id in
      update_projects rest (<[project_id := success]> update_results)
  end.

Definition handle_webhook (req : http_request) : M http_response :=
  match header_get "X-Hook-Secret" (req_headers req) with
  | Some secret =>
      fun w =>
        (Ok {| resp_status := 200;
               resp_headers := [("X-Hook-Secret"%string, secret)];
               resp_body := JEmpty |},
         set_secret (<["secret"%string := secret]> (WEBHOOK_SECRET w)) w)
  | None =>
      try_except
        (let* projects_to_update :=
           determine_projects_to_update (req_json req) in
         let* update_results := update_projects projects_to_update ∅ in
         ret {| resp_status := 200; resp_headers := [];
                resp_body := JReceived update_results |})
        (ret {| resp_status := 500; resp_headers := [];
                resp_body := JError |})
  end.

(** ** The stages of [update_project_metrics]

    Named for the proofs: the function above is these two, one after the
    other (see [update_project_metrics_stages]). *)

(** From the loop to the write of the note. *)
Definition write_back (pid st e a : string) (tasks : list task_compact)
    (current_time : string) : M bool :=
  let* acc := process_tasks st e a tasks no_totals in
  let* project_info := projects_find_by_id pid in
  let* _ :=
    tasks_update st
      (render_summary
         (default "Construction Project"%string (p_name project_info))
         acc current_time) in
  ret true.

(** Find the status task or create it, then go on. *)
Definition with_status_task (pid e a : string) (tasks : list task_compact)
    (current_time : string) : M bool :=
  let* found := find_status_task pid in
  let* created :=
    (if negb (truthy found) then create_status_task pid else ret found) in
  match created with
  | Some st =>
      if negb (truthy created) then ret false
      else write_back pid st e a tasks current_time
  | None => ret false
  end.

(** ** Notions used by the statements

    Predicates on the store and on pairs of worlds. *)

(** No client call fails. *)
Definition fault_free (w : world) : Prop := forall n, w_faults w n = false.

(** Every task of the store has a gid. *)
Definition gids_not_empty (w : world) : Prop :=
  forall t, In t (w_tasks w) -> t_gid t <> ""%string.


(** The settings of a project resolve to both field gids. *)
Definition has_fields (settings : list custom_field) : bool :=
  truthy (fst (resolve_fields settings)) &&
  truthy (snd (resolve_fields settings)).

(** A project of the store is eligible when its settings resolve. *)
Definition eligibleb (w : world) (pid : string) : bool :=
  match lookup_project pid w with
  | Some p => has_fields (p_settings p)
  | None => false
  end.

(** A setting with the given field name is attached to the project. *)
Definition has_setting (name : string) (p : project) : Prop :=
  exists s, In s (p_settings p) /\ cf_name s = name.


(** The task [create_status_task] asks the service to create. *)
Definition new_status_task (pid : string) (w : world) : task :=
  {| t_gid := w_new_gid w (w_created w); t_name := STATUS_TASK_NAME;
     t_projects := [pid]; t_custom_fields := Some [];
     t_notes := STATUS_TASK_NOTES |}.

(** The world after a successful creation of the status task: two calls
    were made and the store holds one more task. *)
Definition after_create (pid : string) (w : world) : world :=
  set_created (S (w_created w))
    (set_tasks (w_tasks w ++ [new_status_task pid w]) (tick (tick w))).


(** What a pass leaves alone: the projects, the secret and the
    environment; the clock has been read once. *)
Definition pass_frame (w w' : world) : Prop :=
  w_projects w' = w_projects w /\
  WEBHOOK_SECRET w' = WEBHOOK_SECRET w /\
  w_faults w' = w_faults w /\
  w_new_gid w' = w_new_gid w /\
  w_clock w' = w_clock w /\
  w_ticks w' = S (w_ticks w).

(** The name a summary is rendered with. *)
Definition display_name (p : project) : string :=
  default "Construction Project"%string (p_name p).

Definition note_of (tid : string) (w : world) : option string :=
  option_map t_notes (lookup_task tid w).

(** The listing without the status task. *)
Definition without_status (status_task_gid : string)
    (tasks : list task_compact) : list task_compact :=
  List.filter (fun t => negb (String.eqb (tc_gid t) status_task_gid)) tasks.



(** ** What the code is expected to compute

    The results of the loops read off the store, to compare with what the
    code computes through the client. *)

(** What the loop is expected to add to [overbudget_tasks] for one task of
    the listing, read from the store: one entry when the actual cost is
    above 0 and above the estimate, nothing otherwise and nothing for the
    status task. *)
Definition expected_overbudget (status_task_gid e a : string) (w : world)
    (task : task_compact) : list overbudget_item :=
  if String.eqb (tc_gid task) status_task_gid then []
  else
    match lookup_task (tc_gid task) w with
    | Some details =>
        let estimated := fst (extract_costs e a details) in
        let actual := snd (extract_costs e a details) in
        if Qlt_le_dec 0 actual then
          if Qlt_le_dec estimated actual then
            [{| ob_name := tc_name task; ob_estimated := estimated;
                ob_actual := actual;
                ob_difference := (actual - estimated)%Q |}]
          else []
        else []
    | None => []
    end.

(** The loop read off the store: what [process_tasks] computes when every
    fetch succeeds. *)
Definition aggregate_step (st e a : string) (w : world) (acc : totals)
    (item : task_compact) : totals :=
  if String.eqb (tc_gid item) st then acc
  else
    match lookup_task (tc_gid item) w with
    | Some details =>
        add_to_totals acc (tc_name item) (fst (extract_costs e a details))
          (snd (extract_costs e a details))
    | None => acc
    end.

Definition aggregate (st e a : string) (w : world)
    (tasks : list task_compact) (acc : totals) : totals :=
  fold_left (aggregate_step st e a w) tasks acc.

(** What a pass over a project does when no call fails, read off the
    store: [None] when it gives up, otherwise the project, the two field
    gids, the gid of the status task and the task created for it, if any. *)
Definition pass_plan (pid : string) (w : world)
  : option (project * string * string * string * list task) :=
  match lookup_project pid w with
  | Some proj =>
      match resolve_fields (p_settings proj) with
      | (Some e, Some a) =>
          if has_fields (p_settings proj) then
            let found :=
              first_status_task (map compact (project_tasks pid w)) in
            if truthy found then
              option_map (fun st => (proj, e, a, st, [])) found
            else if String.eqb (p_workspace proj) "" then None
            else if String.eqb (w_new_gid w (w_created w)) "" then None
            else Some (proj, e, a, w_new_gid w (w_created w),
                       [new_status_task pid w])
          else None
      | _ => None
      end
  | None => None
  end.

(** The projects the fallback enumerates: those of the workspace of the
    template project, when the two calls that fetch them go through (the
    calls numbered [w_calls] and [w_calls + 1]). *)
Definition enumerated_projects (w : world) : list project :=
  if w_faults w (w_calls w) then []
  else
    match lookup_project TEMPLATE_PROJECT_ID w with
    | Some template =>
        if String.eqb (p_workspace template) "" then []
        else if w_faults w (S (w_calls w)) then []
        else
          List.filter
            (fun p => String.eqb (p_workspace p) (p_workspace template))
            (w_projects w)
    | None => []
    end.

(** Of a list of projects, those whose fields resolve: the lookup of the
    settings goes through (the calls are numbered from [k]) and the project
    is eligible. *)
Fixpoint resolved_projects (w : world) (k : nat) (ps : list project)
  : list string :=
  match ps with
  | [] => []
  | p :: rest =>
      if negb (w_faults w k) && eligibleb w (p_gid p) then
        p_gid p :: resolved_projects w (S k) rest
      else resolved_projects w (S k) rest
  end.

(** What the fallback is expected to return. *)
Definition expected_fallback (w : world) : list string :=
  resolved_projects w (2 + w_calls w) (enumerated_projects w).

(** The projects the fallback is expected to return when no call fails:
    the eligible projects of the workspace of the template project, in the
    order of the store. *)
Definition expected_workspace_projects (w : world) : list string :=
  match lookup_project TEMPLATE_PROJECT_ID w with
  | Some template =>
      if String.eqb (p_workspace template) "" then []
      else
        map p_gid
          (List.filter (fun p => eligibleb w (p_gid p))
             (List.filter
                (fun p => String.eqb (p_workspace p) (p_workspace template))
                (w_projects w)))
  | None => []
  end.

(** ** Stores for the examples *)

(** A store for the examples: one project ["P1"] in workspace ["W"] with
    both custom fields, field gids ["f_est"] and ["f_act"]. *)
Definition example_settings : list custom_field :=
  [{| cf_name := "Budget"; cf_gid := "f_est" |};
   {| cf_name := "Actual Cost"; cf_gid := "f_act" |}].

Definition example_project (gid : string) (settings : list custom_field)
  : project :=
  {| p_gid := gid; p_name := Some gid; p_workspace := "W";
     p_settings := settings |}.

Definition example_task (gid name project_gid : string)
    (estimated actual : option Q) : task :=
  {| t_gid := gid; t_name := name; t_projects := [project_gid];
     t_custom_fields :=
       Some [{| fv_gid := "f_est"; fv_number_value := estimated |};
             {| fv_gid := "f_act"; fv_number_value := actual |}];
     t_notes := "" |}.

(** Three eligible projects in the workspace of the template project, each
    with a status task that carries an earlier note and with one more
    task. *)
Definition old_status_task (gid project_gid : string) : task :=
  {| t_gid := gid; t_name := STATUS_TASK_NAME; t_projects := [project_gid];
     t_custom_fields := Some []; t_notes := "earlier summary" |}.

Definition example_clock (n : nat) : string :=
  "2024-01-01 00:00:0" +:+ pretty n.

Definition no_faults : nat -> bool := fun _ => false.

(** Only the call numbered [k] fails. *)
Definition fail_at (k : nat) : nat -> bool := fun n => Nat.eqb n k.

Definition example_world (projects : list project) (tasks : list task)
    (faults : nat -> bool) : world :=
  {| w_projects := projects; w_tasks := tasks; WEBHOOK_SECRET := ∅;
     w_faults := faults; w_calls := 0;
     w_new_gid := fun n => "status" +:+ pretty n; w_created := 0;
     w_clock := example_clock; w_ticks := 0 |}.

(** Project ["P1"] with a single task. *)
Definition one_task_world (estimated actual : option Q) : world :=
  example_world [example_project "P1" example_settings]
    [example_task "t1" "Walls" "P1" estimated actual] no_faults.

(** One project ["P1"] with one task, without a status task. *)
Definition lone_project_world (faults : nat -> bool) : world :=
  example_world [example_project "P1" example_settings]
    [example_task "t1" "Walls" "P1" (Some 100%Q) (Some 150%Q)] faults.

(** The same project with its status task ["s1"]. *)
Definition status_project_world (faults : nat -> bool) : world :=
  example_world [example_project "P1" example_settings]
    [old_status_task "s1" "P1";
     example_task "t1" "Walls" "P1" (Some 100%Q) (Some 150%Q)] faults.

(** Project ["P1"] whose only task is its status task ["s1"]. *)
Definition status_only_world : world :=
  example_world [example_project "P1" example_settings]
    [old_status_task "s1" "P1"] no_faults.

(** A store with the template project, an eligible project ["P1"], a
    project ["P2"] that lacks the actual-cost field, and one task that
    belongs to both. *)
Definition two_project_world : world :=
  example_world
    [example_project TEMPLATE_PROJECT_ID [];
     example_project "P1" example_settings;
     example_project "P2" [{| cf_name := "Budget"; cf_gid := "f_est" |}]]
    [{| t_gid := "t1"; t_name := "Walls"; t_projects := ["P1"; "P2"]%string;
        t_custom_fields := Some []; t_notes := "" |}]
    no_faults.

Definition three_project_world (faults : nat -> bool) : world :=
  example_world
    [example_project TEMPLATE_PROJECT_ID [];
     example_project "P1" example_settings;
     example_project "P2" example_settings;
     example_project "P3" example_settings]
    [old_status_task "s1" "P1";
     example_task "t1" "Walls" "P1" (Some 100%Q) (Some 150%Q);
     old_status_task "s2" "P2";
     example_task "t2" "Roof" "P2" (Some 100%Q) (Some 80%Q);
     old_status_task "s3" "P3";
     example_task "t3" "Floor" "P3" (Some 100%Q) None]
    faults.

(** The totals of the loop run over the whole listing of project ["P1"]
    with status task [status], when the loop does not raise. *)
Definition example_totals (status : string) (w : world) : totals :=
  match process_tasks status "f_est" "f_act"
          (map compact (project_tasks "P1" w)) no_totals w with
  | (Ok acc, _) => acc
  | (Raise, _) => no_totals
  end.


(** The body of a delivery with one event, a change of the task [gid]. *)
Definition task_event (gid : string) : event_data :=
  {| events :=
       Some [{| ev_resource :=
                  Some {| resource_type := Some "task"%string;
                          resource_gid := Some gid |} |}] |}.

Definition manual_request : http_request :=
  {| req_headers := []; req_json := None |}.

(** ** The other endpoints *)

(** The JSON bodies [/setup], [/update], [/health] and [/register-webhook]
    answer with. The text of an exception is not modelled: the body that
    carries one is [JFailed]. *)
Inductive endpoint_body : Type :=
| JResults (status message : string) (results : gmap string bool)
| JHealthy
| JMessage (status message : string)
| JRegistered (message webhook_gid target_url : string)
| JFailed.

Record endpoint_response := {
  er_status : nat;
  er_body : endpoint_body
}.

(** [any(results.values())] *)
Definition any_value (results : gmap string bool) : bool :=
  existsb (fun kv => snd kv) (map_to_list results).

(** One turn of the loop of [setup]: find or create the status task, then
    update the metrics. *)
Definition setup_project (project_id : string) : M bool :=
  let* status_task_gid := find_status_task project_id in
  let* _ :=
    (if negb (truthy status_task_gid) then create_status_task project_id
     else ret status_task_gid) in
  update_project_metrics project_id.

(** The loop [for project_id in projects_to_update] of [setup]. *)
Fixpoint setup_projects (projects_to_update : list string)
    (results : gmap string bool) : M (gmap string bool) :=
  match projects_to_update with
  | [] => ret results
  | project_id :: rest =>
      let* success := setup_project project_id in
      setup_projects rest (<[project_id := success]> results)
  end.

(** [setup], the handler of [/setup] *)
Definition setup : M endpoint_response :=
  let* projects_to_update := determine_projects_to_update None in
  let* results := setup_projects projects_to_update ∅ in
  if any_value results then
    ret {| er_status := 200;
           er_body :=
             JResults "success"
               "Project status tasks created and metrics updated" results |}
  else
    ret {| er_status := 500;
           er_body :=
             JResults "error" "Failed to setup project status" results |}.

(** [health], the handler of [/health] *)
Definition health : M endpoint_response :=
  ret {| er_status := 200; er_body := JHealthy |}.

(** [manual_update], the handler of [/update]; its loop is the one of
    [handle_webhook]. *)
Definition manual_update : M endpoint_response :=
  let* projects_to_update := determine_projects_to_update None in
  let* results := update_projects projects_to_update ∅ in
  if any_value results then
    ret {| er_status := 200;
           er_body :=
             JResults "success" "Project statuses manually updated"
               results |}
  else
    ret {| er_status := 500;
           er_body :=
             JResults "error" "Failed to update project statuses"
               results |}.

(** *** [register_webhook]

    The webhooks the service holds are not part of the world of the other
    handlers; the handler runs in a world that adds them. *)

(** A webhook as [client.webhooks.create] returns it. *)
Record webhook := {
  wh_gid : string;
  wh_resource : string;
  wh_target : string
}.

(** The world with the webhooks of the service and the gid the service
    gives to the next one. *)
Record hook_world := {
  hw_world : world;
  hw_webhooks : list webhook;
  hw_new_gid : nat -> string
}.

Definition set_world (w : world) (hw : hook_world) : hook_world :=
  {| hw_world := w; hw_webhooks := hw_webhooks hw;
     hw_new_gid := hw_new_gid hw |}.

Definition HM (A : Type) : Type := hook_world -> result A * hook_world.

(** A computation of the other handlers, run in the larger world. *)
Definition lift {A} (m : M A) : HM A :=
  fun hw =>
    match m (hw_world hw) with
    | (r, w') => (r, set_world w' hw)
    end.

(** [client.webhooks.create({'resource': ..., 'target': ...})]: a client
    call like the others; the service picks the gid. *)
Definition webhooks_create (resource target : string) : HM webhook :=
  fun hw =>
    let w := hw_world hw in
    if w_faults w (w_calls w) then (Raise, set_world (tick w) hw)
    else
      let webhook :=
        {| wh_gid := hw_new_gid hw (length (hw_webhooks hw));
           wh_resource := resource; wh_target := target |} in
      (Ok webhook,
       {| hw_world := tick w; hw_webhooks := hw_webhooks hw ++ [webhook];
          hw_new_gid := hw_new_gid hw |}).

(** [register_webhook], the handler of [/register-webhook] *)
Definition register_webhook : HM endpoint_response :=
  fun hw =>
    let webhook_url :=
      "https://asanaconnector2claude-production.up.railway.app/webhook"
        %string in
    match lift (get_project_workspace TEMPLATE_PROJECT_ID) hw with
    | (Ok workspace_id, hw1) =>
        match workspace_id with
        | Some ws =>
            if negb (truthy workspace_id) then
              (Ok {| er_status := 500;
                     er_body :=
                       JMessage "error"
                         "Could not determine workspace ID" |}, hw1)
            else
              match webhooks_create ws webhook_url hw1 with
              | (Ok webhook, hw2) =>
                  (Ok {| er_status := 200;
                         er_body :=
                           JRegistered
                             ("Webhook registered for workspace " +:+ ws)
                             (wh_gid webhook) webhook_url |}, hw2)
              | (Raise, hw2) =>
                  (Ok {| er_status := 500; er_body := JFailed |}, hw2)
              end
        | None =>
            (Ok {| er_status := 500;
                   er_body :=
                     JMessage "error"
                       "Could not determine workspace ID" |}, hw1)
        end
    | (Raise, hw1) => (Ok {| er_status := 500; er_body := JFailed |}, hw1)
    end.

(** *** [update_status] *)

(** An entry of [results]: [{'success': ..., 'name': ...}]. *)
Record update_result := { ur_success : bool; ur_name : string }.

(** [d[k] = v] on a dictionary whose order is read later: a key that is
    there keeps its place, a new key goes to the end. *)
Fixpoint dict_set {V} (k : string) (v : V) (d : list (string * V))
  : list (string * V) :=
  match d with
  | [] => [(k, v)]
  | (k', v') :: rest =>
      if String.eqb k' k then (k, v) :: rest
      else (k', v') :: dict_set k v rest
  end.

(** The inner [try]: the name of the project for display. *)
Definition project_display_name (project_id : string) : M string :=
  try_except
    (let* project_info := projects_find_by_id project_id in
     ret (default ("Project " +:+ project_id) (p_name project_info)))
    (ret ("Project " +:+ project_id)).

(** The loop [for project_id in projects_to_update] of [update_status]. *)
Fixpoint update_status_projects (projects_to_update : list string)
    (results : list (string * update_result))
  : M (list (string * update_result)) :=
  match projects_to_update with
  | [] => ret results
  | project_id :: rest =>
      let* success := update_project_metrics project_id in
      let* project_name := project_display_name project_id in
      update_status_projects rest
        (dict_set project_id
           {| ur_success := success; ur_name := project_name |} results)
  end.

(** [sum(1 for result in results.values() if result['success'])] *)
Definition count_successful (results : list (string * update_result))
  : nat :=
  length (List.filter (fun kv => ur_success (snd kv)) results).

Definition dq : string := String "034"%char EmptyString.

(** The page of [update_status]: the head, up to the title. *)
Definition html_head : string :=
  nl
    +:+ "        <html>" +:+ nl
    +:+ "        <head>" +:+ nl
    +:+ "            <title>Project Status Updated</title>" +:+ nl
    +:+ "            <style>" +:+ nl
    +:+ "                body { font-family: Arial, "
    +:+ "sans-serif; margin: 40px; line-height: 1.6; }" +:+ nl
    +:+ "                .success { color: green; font-weight: bold; }" +:+ nl
    +:+ "                .error { color: red; font-weight: bold; }" +:+ nl
    +:+ "                .container { max-width: 800px; "
    +:+ "margin: 0 auto; }" +:+ nl
    +:+ "                h1 { color: #333; }" +:+ nl
    +:+ "                .button { " +:+ nl
    +:+ "                    display: inline-block; " +:+ nl
    +:+ "                    background: #4CAF50; " +:+ nl
    +:+ "                    color: white; " +:+ nl
    +:+ "                    padding: 10px 20px; " +:+ nl
    +:+ "                    text-decoration: none; " +:+ nl
    +:+ "                    border-radius: 4px; " +:+ nl
    +:+ "                    margin-top: 20px; " +:+ nl
    +:+ "                }" +:+ nl
    +:+ "                table { width: 100%; border-collapse: "
    +:+ "collapse; margin-top: 20px; }" +:+ nl
    +:+ "                th, td { border: 1px solid #ddd; "
    +:+ "padding: 8px; text-align: left; }" +:+ nl
    +:+ "                th { background-color: #f2f2f2; }" +:+ nl
    +:+ "                tr:nth-child(even) { "
    +:+ "background-color: #f9f9f9; }" +:+ nl
    +:+ "            </style>" +:+ nl
    +:+ "        </head>" +:+ nl
    +:+ "        <body>" +:+ nl
    +:+ "            <div class=" +:+ dq +:+ "container" +:+ dq +:+ ">" +:+ nl
    +:+ "                <h1>Project Status Update Results</h1>" +:+ nl
    +:+ "        ".

(** The paragraph shown when [successful_updates > 0]. *)
Definition html_success (successful_updates : nat) : string :=
  nl
    +:+ "                <p class=" +:+ dq +:+ "success" +:+ dq
    +:+ ">✅ Successfully updated " +:+ pretty successful_updates
    +:+ " project(s)!</p>" +:+ nl
    +:+ "            ".

(** The paragraph shown otherwise. *)
Definition html_failure : string :=
  nl
    +:+ "                <p class=" +:+ dq +:+ "error" +:+ dq
    +:+ ">❌ Failed to update any projects.</p>" +:+ nl
    +:+ "            ".

(** The time and the head of the table. *)
Definition html_table_head (current_time : string) : string :=
  nl
    +:+ "                <p>Current time: " +:+ current_time +:+ "</p>" +:+ nl
    +:+ "                " +:+ nl
    +:+ "                <h2>Update Details</h2>" +:+ nl
    +:+ "                <table>" +:+ nl
    +:+ "                    <tr>" +:+ nl
    +:+ "                        <th>Project</th>" +:+ nl
    +:+ "                        <th>Status</th>" +:+ nl
    +:+ "                    </tr>" +:+ nl
    +:+ "        ".

(** One row of the table. *)
Definition html_row (name status_text : string) : string :=
  nl
    +:+ "                    <tr>" +:+ nl
    +:+ "                        <td>" +:+ name +:+ "</td>" +:+ nl
    +:+ "                        <td>" +:+ status_text +:+ "</td>" +:+ nl
    +:+ "                    </tr>" +:+ nl
    +:+ "            ".

(** The end of the page. *)
Definition html_foot : string :=
  nl
    +:+ "                </table>" +:+ nl
    +:+ "                " +:+ nl
    +:+ "                <a href=" +:+ dq +:+ "/update-status" +:+ dq
    +:+ " class=" +:+ dq +:+ "button" +:+ dq +:+ ">Update Again</a>" +:+ nl
    +:+ "            </div>" +:+ nl
    +:+ "        </body>" +:+ nl
    +:+ "        </html>" +:+ nl
    +:+ "        ".

(** The loop [for project_id, result in results.items()]. *)
Definition html_rows (results : list (string * update_result))
    (html_response : string) : string :=
  fold_left
    (fun html kv =>
       let status_text :=
         if ur_success (snd kv) then "✅ Updated" else "❌ Failed" in
       html +:+ html_row (ur_name (snd kv)) status_text)
    results html_response.

(** What [update_status] answers with: the page, or the text of the
    error (the text of the exception is not modelled). *)
Inductive page_body : Type :=
| Page (html : string)
| ErrorText.

Record page_response := { pr_status : nat; pr_body : page_body }.

(** [update_status], the handler of [/update-status] *)
Definition update_status : M page_response :=
  try_except
    (let* projects_to_update := determine_projects_to_update None in
     let* results := update_status_projects projects_to_update [] in
     let successful_updates := count_successful results in
     let html_response := html_head in
     let html_response :=
       if (0 <? successful_updates)%nat then
         html_response +:+ html_success successful_updates
       else html_response +:+ html_failure in
     let* current_time := now in
     let html_response := html_response +:+ html_table_head current_time in
     let html_response := html_rows results html_response in
     let html_response := html_response +:+ html_foot in
     ret {| pr_status := 200; pr_body := Page html_response |})
    (ret {| pr_status := 500; pr_body := ErrorText |}).

(** ** Notions used by the further properties *)

(** The counters and the total of the actual costs are consistent: no more
    completed tasks than tasks, no more over-budget entries than completed
    tasks, a total actual cost that is not negative. *)
Definition totals_consistent (acc : totals) : Prop :=
  (completed_tasks acc <= total_tasks acc)%nat /\
  (length (overbudget_tasks acc) <= completed_tasks acc)%nat /\
  (0 <= total_actual acc)%Q.

(** An entry of the over-budget list is sound: the actual cost is above 0
    and above the estimate, and the difference is what it says. *)
Definition overbudget_sound (item : overbudget_item) : Prop :=
  (0 < ob_actual item)%Q /\
  (ob_estimated item < ob_actual item)%Q /\
  ob_difference item = (ob_actual item - ob_estimated item)%Q /\
  (0 < ob_difference item)%Q.

(** The last setting of a project with the given field name. *)
Definition last_setting (name : string) (settings : list custom_field)
  : option custom_field :=
  List.find (fun s => String.eqb (cf_name s) name) (rev settings).

(** An event the first half of [determine_projects_to_update] acts on: a
    task event with a gid. *)
Definition names_task (e : event) : bool :=
  is_task_event e && truthy (event_task_gid e).

(** An event for a change of the task [gid]. *)
Definition task_change (gid : string) : event :=
  {| ev_resource :=
       Some {| resource_type := Some "task"%string;
               resource_gid := Some gid |} |}.

(** A computation all of whose runs, whatever they return, relate the
    world before to the world after. *)
Definition preserves (R : relation world) {A} (m : M A) : Prop :=
  forall w r w', m w = (r, w') -> R w w'.

(** Worlds that differ at most in the number of calls made and of
    readings of the clock. *)
Definition same_store (w w' : world) : Prop :=
  w_projects w' = w_projects w /\
  w_tasks w' = w_tasks w /\
  WEBHOOK_SECRET w' = WEBHOOK_SECRET w /\
  w_faults w' = w_faults w /\
  w_new_gid w' = w_new_gid w /\
  w_created w' = w_created w /\
  w_clock w' = w_clock w.

(** What no handler changes but the handshake: the projects, the stored
    secret and what the environment decides. The tasks may differ. *)
Definition same_config (w w' : world) : Prop :=
  w_projects w' = w_projects w /\
  WEBHOOK_SECRET w' = WEBHOOK_SECRET w /\
  w_faults w' = w_faults w /\
  w_new_gid w' = w_new_gid w /\
  w_clock w' = w_clock w.

(** A computation that leaves them as they are, whatever it returns. *)
Definition keeps_config {A} (m : M A) : Prop := preserves same_config m.

(** Two tasks that differ in their notes at most. *)
Definition same_but_notes (t t' : task) : Prop :=
  t_gid t' = t_gid t /\ t_name t' = t_name t /\
  t_projects t' = t_projects t /\
  t_custom_fields t' = t_custom_fields t.

(** What a request may do to the store: add tasks named [Project Status]
    at the end and write notes. The projects are as they were, no task is
    removed, and every task keeps its gid, name, projects and custom
    fields. *)
Definition store_grows (w w' : world) : Prop :=
  w_projects w' = w_projects w /\
  exists extra,
    Forall (fun t => t_name t = STATUS_TASK_NAME) extra /\
    Forall2 same_but_notes (w_tasks w ++ extra) (w_tasks w').

(** A computation that does no more than that. *)
Definition only_grows {A} (m : M A) : Prop := preserves store_grows m.

(** The tasks the store has gained are the tasks created. *)
Definition created_counted (w w' : world) : Prop :=
  (w_created w' + length (w_tasks w) =
   w_created w + length (w_tasks w'))%nat.

(** The gids of the tasks of the store are distinct, and the gids the
    service gives to the tasks it creates are distinct from them and from
    each other. *)
Definition gids_distinct (w : world) : Prop :=
  forall n,
    NoDup (map t_gid (w_tasks w)
             ++ map (w_new_gid w) (seq (w_created w) n)).

(** From a store with distinct gids: the gids are still distinct, and
    every task that is not named [Project Status] is there as it was, its
    notes included. *)
Definition spares_ordinary_tasks (w w' : world) : Prop :=
  gids_distinct w ->
  gids_distinct w' /\
  forall t, In t (w_tasks w) -> t_name t <> STATUS_TASK_NAME ->
    In t (w_tasks w').

(** The world after the requests on [/webhook] have been served one after
    the other. *)
Fixpoint serve_all (reqs : list http_request) (w : world) : world :=
  match reqs with
  | [] => w
  | req :: rest => serve_all rest (snd (handle_webhook req w))
  end.

(** The secret of the last handshake among the requests. *)
Fixpoint last_handshake (reqs : list http_request) : option string :=
  match reqs with
  | [] => None
  | req :: rest =>
      match last_handshake rest with
      | Some secret => Some secret
      | None => header_get "X-Hook-Secret" (req_headers req)
      end
  end.


(** The address [/register-webhook] asks the service to deliver events
    to. *)
Definition WEBHOOK_TARGET : string :=
  "https://asanaconnector2claude-production.up.railway.app/webhook".

(** A world of [/register-webhook] for the examples: no webhook yet. *)
Definition example_hook_world (w : world) : hook_world :=
  {| hw_world := w; hw_webhooks := [];
     hw_new_gid := fun n => "webhook" +:+ pretty n |}.

(** * Properties *)

(** ** Numbers and truth values *)

Lemma Qgtb_true (a b : Q) : Qgtb a b = true <-> (b < a)%Q.
Proof.
  unfold Qgtb. rewrite negb_true_iff. split.
  - intros H. apply Qnot_le_lt. intros Hle.
    apply Qle_bool_iff in Hle. congruence.
  - intros H. destruct (Qle_bool a b) eqn:E; [|reflexivity].
    apply Qle_bool_iff in E. exfalso. exact (Qlt_not_le _ _ H E).
Qed.

Lemma Qgtb_false (a b : Q) : Qgtb a b = false <-> (a <= b)%Q.
Proof.
  unfold Qgtb. rewrite negb_false_iff. apply Qle_bool_iff.
Qed.

Lemma truthy_Some (x : option string) :
  truthy x = true -> exists s, x = Some s /\ s <> ""%string.
Proof.
  destruct x as [s|]; simpl; [|discriminate].
  intros H. exists s. split; [reflexivity|].
  apply negb_true_iff in H. now apply String.eqb_neq.
Qed.

(** ** Reading the cost fields *)

Lemma read_fields_fst (e a : string) (fields : list field_value) :
  forall costs,
    (forall f, In f fields -> fv_gid f = e -> fv_number_value f = None) ->
    fst (fold_left (read_field e a) fields costs) = fst costs.
Proof.
  induction fields as [|f fields IH]; intros costs H; simpl; [reflexivity|].
  rewrite IH by (intros g Hg; apply H; now right).
  unfold read_field. destruct (fv_number_value f) as [v|] eqn:Ev;
    [|reflexivity].
  destruct (String.eqb (fv_gid f) e) eqn:Ee.
  - apply String.eqb_eq in Ee. rewrite (H f (or_introl eq_refl) Ee) in Ev.
    discriminate.
  - destruct (String.eqb (fv_gid f) a); reflexivity.
Qed.

Lemma read_fields_snd (e a : string) (fields : list field_value) :
  forall costs,
    (forall f, In f fields -> fv_gid f = a -> fv_number_value f = None) ->
    snd (fold_left (read_field e a) fields costs) = snd costs.
Proof.
  induction fields as [|f fields IH]; intros costs H; simpl; [reflexivity|].
  rewrite IH by (intros g Hg; apply H; now right).
  unfold read_field. destruct (fv_number_value f) as [v|] eqn:Ev;
    [|reflexivity].
  destruct (String.eqb (fv_gid f) e) eqn:Ee; [reflexivity|].
  destruct (String.eqb (fv_gid f) a) eqn:Ea; [|reflexivity].
  apply String.eqb_eq in Ea. rewrite (H f (or_introl eq_refl) Ea) in Ev.
  discriminate.
Qed.



(** ** The aggregation loop

    For a fixed status task [st] and field gids [e] and [a]. *)

Lemma add_to_totals_overbudget (acc : totals) (name : string)
    (estimated actual : Q) :
  overbudget_tasks (add_to_totals acc name estimated actual) =
    overbudget_tasks acc ++
      (if Qlt_le_dec 0 actual then
         if Qlt_le_dec estimated actual then
           [{| ob_name := name; ob_estimated := estimated;
               ob_actual := actual;
               ob_difference := (actual - estimated)%Q |}]
         else []
       else []).
Proof.
  unfold add_to_totals.
  destruct (Qlt_le_dec 0 actual) as [Hpos|Hnpos].
  - apply Qgtb_true in Hpos. rewrite Hpos. simpl.
    destruct (Qlt_le_dec estimated actual) as [Hov|Hnov].
    + apply Qgtb_true in Hov. now rewrite Hov.
    + apply Qgtb_false in Hnov. rewrite Hnov. now rewrite app_nil_r.
  - apply Qgtb_false in Hnpos. rewrite Hnpos. simpl. now rewrite app_nil_r.
Qed.

Section Loop.

Variables st e a : string.

Lemma process_task_status (acc : totals)
    (task : task_compact) (w : world) :
  tc_gid task = st -> process_task st e a acc task w = (Ok acc, w).
Proof.
  intros H. unfold process_task. rewrite H, String.eqb_refl. reflexivity.
Qed.

Lemma process_task_other (acc : totals)
    (task : task_compact) (w : world) :
  tc_gid task <> st ->
  process_task st e a acc task w =
    if w_faults w (w_calls w) then (Raise, tick w)
    else match lookup_task (tc_gid task) w with
         | Some details =>
             (Ok (add_to_totals acc (tc_name task)
                    (fst (extract_costs e a details))
                    (snd (extract_costs e a details))), tick w)
         | None => (Raise, tick w)
         end.
Proof.
  intros H. apply String.eqb_neq in H.
  unfold process_task, bind, tasks_find_by_id, api_call, ret. rewrite H.
  destruct (w_faults w (w_calls w)); [reflexivity|].
  change (lookup_task (tc_gid task) (tick w))
    with (lookup_task (tc_gid task) w).
  destruct (lookup_task (tc_gid task) w); reflexivity.
Qed.

(** The loop only makes calls: whatever it returns, the store is the one it
    started from. *)
Lemma process_tasks_calls (tasks : list task_compact) :
  forall acc w r w',
    process_tasks st e a tasks acc w = (r, w') ->
    exists n, w' = set_calls n w /\ (w_calls w <= n)%nat.
Proof.
  induction tasks as [|task rest IH]; intros acc w r w' H; simpl in H.
  - inversion H; subst. exists (w_calls w'). split; [|lia].
    now destruct w'.
  - unfold bind in H.
    destruct (String.eqb_spec (tc_gid task) st) as [Heq|Hne].
    + rewrite (process_task_status _ _ _ Heq) in H.
      eapply IH; eauto.
    + rewrite (process_task_other _ _ _ Hne) in H.
      destruct (w_faults w (w_calls w)).
      { inversion H; subst. exists (S (w_calls w)). split; [reflexivity|lia]. }
      destruct (lookup_task (tc_gid task) w).
      * apply IH in H. destruct H as (n & -> & Hn). exists n.
        split; [reflexivity|]. simpl in Hn. lia.
      * inversion H; subst. exists (S (w_calls w)).
        split; [reflexivity|lia].
Qed.

Lemma process_tasks_overbudget (tasks : list task_compact) :
  forall acc w acc' w',
    process_tasks st e a tasks acc w = (Ok acc', w') ->
    overbudget_tasks acc' =
      overbudget_tasks acc ++ flat_map (expected_overbudget st e a w) tasks.
Proof.
  induction tasks as [|item rest IH]; intros acc w acc' w' H; simpl in H.
  - inversion H; subst. simpl. now rewrite app_nil_r.
  - unfold bind in H. simpl. unfold expected_overbudget at 1.
    destruct (String.eqb_spec (tc_gid item) st) as [Heq|Hne].
    + rewrite (process_task_status _ _ _ Heq) in H.
      simpl. eapply IH; eauto.
    + rewrite (process_task_other _ _ _ Hne) in H.
      destruct (w_faults w (w_calls w)); [discriminate|].
      destruct (lookup_task (tc_gid item) w) as [details|]; [|discriminate].
      apply IH in H. rewrite H, add_to_totals_overbudget.
      rewrite <- app_assoc. reflexivity.
Qed.

Lemma process_tasks_without_status (tasks : list task_compact) :
  forall acc w,
    process_tasks st e a tasks acc w =
      process_tasks st e a (without_status st tasks) acc w.
Proof.
  induction tasks as [|item rest IH]; intros acc w; [reflexivity|].
  simpl. destruct (String.eqb_spec (tc_gid item) st) as [Heq|Hne]; simpl.
  - unfold bind at 1. rewrite (process_task_status _ _ _ Heq).
    apply IH.
  - unfold bind. destruct (process_task st e a acc item w) as [[acc1|] w1];
      [apply IH|reflexivity].
Qed.

Lemma process_tasks_fault_free (tasks : list task_compact) :
  forall acc w,
    fault_free w ->
    (forall item, In item tasks -> tc_gid item <> st ->
       lookup_task (tc_gid item) w <> None) ->
    exists n,
      process_tasks st e a tasks acc w =
        (Ok (aggregate st e a w tasks acc), set_calls n w).
Proof.
  induction tasks as [|item rest IH]; intros acc w Hff Hall; simpl.
  - exists (w_calls w). unfold ret. now destruct w.
  - unfold bind, aggregate. simpl. unfold aggregate_step at 2.
    destruct (String.eqb_spec (tc_gid item) st) as [Heq|Hne].
    + rewrite (process_task_status _ _ _ Heq).
      apply IH; [exact Hff|]. intros i Hi. apply Hall. now right.
    + rewrite (process_task_other _ _ _ Hne), (Hff (w_calls w)).
      destruct (lookup_task (tc_gid item) w) as [details|] eqn:El.
      * destruct (IH (add_to_totals acc (tc_name item)
                        (fst (extract_costs e a details))
                        (snd (extract_costs e a details))) (tick w))
          as [n Hn].
        { exact Hff. }
        { intros i Hi. apply Hall. now right. }
        exists n. rewrite Hn. reflexivity.
      * exfalso. apply (Hall item (or_introl eq_refl) Hne El).
Qed.

Lemma aggregate_ext (w w' : world)
    (tasks : list task_compact) :
  (forall item, In item tasks -> tc_gid item <> st ->
     exists d d', lookup_task (tc_gid item) w = Some d /\
       lookup_task (tc_gid item) w' = Some d' /\
       extract_costs e a d = extract_costs e a d') ->
  forall acc, aggregate st e a w tasks acc = aggregate st e a w' tasks acc.
Proof.
  unfold aggregate. induction tasks as [|item rest IH]; intros H acc;
    [reflexivity|].
  simpl. assert (Hstep : aggregate_step st e a w acc item =
                         aggregate_step st e a w' acc item).
  { unfold aggregate_step.
    destruct (String.eqb_spec (tc_gid item) st) as [|Hne]; [reflexivity|].
    destruct (H item (or_introl eq_refl) Hne) as (d & d' & -> & -> & ->).
    reflexivity. }
  rewrite Hstep. apply IH. intros i Hi. apply H. now right.
Qed.

Lemma aggregate_app (w : world)
    (l1 l2 : list task_compact) (acc : totals) :
  aggregate st e a w (l1 ++ l2) acc =
    aggregate st e a w l2 (aggregate st e a w l1 acc).
Proof. unfold aggregate. apply fold_left_app. Qed.

Lemma aggregate_skip (w : world)
    (tail : list task_compact) (acc : totals) :
  (forall c, In c tail -> tc_gid c = st) ->
  aggregate st e a w tail acc = acc.
Proof.
  unfold aggregate. revert acc.
  induction tail as [|c tail IH]; intros acc H; [reflexivity|].
  simpl. unfold aggregate_step at 2.
  rewrite (H c (or_introl eq_refl)), String.eqb_refl.
  apply IH. intros c' Hc'. apply H. now right.
Qed.

End Loop.

(** ** The totals of one task *)



(** ** The over-budget list *)

(** C2. After an aggregation run the over-budget list holds, in listing
    order, one entry for each task (other than the status task) whose
    actual cost is above 0 and above its estimate, and no other entry; the
    entry's difference is actual minus estimated. A task with estimate 100
    and actual 150 gives exactly one entry, of difference 50; a task with
    actual 0 gives none. *)
Theorem overbudget_detection :
  (forall (st e a : string) (tasks : list task_compact) (w : world)
          (acc' : totals) (w' : world),
      process_tasks st e a tasks no_totals w = (Ok acc', w') ->
      overbudget_tasks acc' = flat_map (expected_overbudget st e a w) tasks)
  /\
  (forall (st e a : string) (item : task_compact) (details : task)
          (w : world),
      tc_gid item <> st ->
      lookup_task (tc_gid item) w = Some details ->
      let estimated := fst (extract_costs e a details) in
      let actual := snd (extract_costs e a details) in
      ((0 < actual)%Q /\ (estimated < actual)%Q ->
         expected_overbudget st e a w item =
           [{| ob_name := tc_name item; ob_estimated := estimated;
               ob_actual := actual;
               ob_difference := (actual - estimated)%Q |}]) /\
      (~ ((0 < actual)%Q /\ (estimated < actual)%Q) ->
         expected_overbudget st e a w item = []))
  /\
  overbudget_tasks
    (example_totals "s" (one_task_world (Some 100%Q) (Some 150%Q))) =
    [{| ob_name := "Walls"; ob_estimated := 100%Q; ob_actual := 150%Q;
        ob_difference := 50%Q |}]
  /\
  overbudget_tasks
    (example_totals "s" (one_task_world (Some 100%Q) (Some 0%Q))) = []
  /\
  overbudget_tasks (example_totals "s" (one_task_world (Some 100%Q) None))
    = [].
Proof.
  split; [|split; [|split; [|split]]].
  - intros st e a tasks w acc' w' H.
    now rewrite (process_tasks_overbudget _ _ _ _ _ _ _ _ H).
  - intros st e a item details w Hne Hlook estimated actual.
    unfold expected_overbudget. apply String.eqb_neq in Hne.
    rewrite Hne, Hlook. fold estimated actual.
    destruct (Qlt_le_dec 0 actual) as [Hpos|Hnpos];
      [destruct (Qlt_le_dec estimated actual) as [Hov|Hnov]|].
    + split; [reflexivity|]. intros Hn. exfalso. apply Hn. now split.
    + split; [|reflexivity]. intros [_ Hov]. exfalso.
      exact (Qlt_not_le _ _ Hov Hnov).
    + split; [|reflexivity]. intros [Hpos _]. exfalso.
      exact (Qlt_not_le _ _ Hpos Hnpos).
  - vm_compute. reflexivity.
  - vm_compute. reflexivity.
  - vm_compute. reflexivity.
Qed.

Lemma overbudget_detection_witness :
  overbudget_tasks (add_to_totals no_totals "Walls" 100%Q 150%Q) =
    flat_map
      (expected_overbudget "s" "f_est" "f_act"
         (one_task_world (Some 100%Q) (Some 150%Q)))
      [{| tc_gid := "t1"; tc_name := "Walls" |}].
Proof.
  apply (proj1 overbudget_detection "s" "f_est" "f_act"
           [{| tc_gid := "t1"; tc_name := "Walls" |}]
           (one_task_world (Some 100%Q) (Some 150%Q))
           (add_to_totals no_totals "Walls" 100%Q 150%Q)
           (tick (one_task_world (Some 100%Q) (Some 150%Q)))).
  vm_compute. reflexivity.
Defined.

(** ** The derived rates *)




(** ** The status task does not count *)

(** C4. The task whose gid is the status task's is left out of the
    aggregation: the loop gives the same totals, and makes the same calls,
    as on the listing without it. When the listing holds nothing but the
    status task, the loop returns with [total_tasks = 0] and
    [percent_complete = 0]; a pass over a project whose only task is its
    status task writes the summary of no task at all. *)
Theorem status_task_excluded :
  (forall (st e a : string) (tasks : list task_compact) (w : world),
     (forall acc,
        process_tasks st e a tasks acc w =
          process_tasks st e a (without_status st tasks) acc w) /\
     (forall item, In item (without_status st tasks) -> tc_gid item <> st) /\
     ((forall item, In item tasks -> tc_gid item = st) ->
        exists acc',
          process_tasks st e a tasks no_totals w = (Ok acc', w) /\
          total_tasks acc' = 0%nat /\ completed_tasks acc' = 0%nat /\
          total_estimated acc' = 0%Q /\ total_actual acc' = 0%Q /\
          percent_complete acc' = 0%Q)) /\
  fst (update_project_metrics "P1" status_only_world) = Ok true /\
  note_of "s1" (snd (update_project_metrics "P1" status_only_world)) =
    Some (render_summary "P1" no_totals (example_clock 0)) /\
  total_tasks no_totals = 0%nat /\ percent_complete no_totals = 0%Q.
Proof.
  split; [|vm_compute; repeat split].
  intros st e a tasks w. split; [|split].
  - intros acc. apply process_tasks_without_status.
  - intros item Hin. unfold without_status in Hin.
    apply filter_In in Hin. destruct Hin as [_ Hin].
    apply negb_true_iff in Hin. now apply String.eqb_neq.
  - intros Hall. exists no_totals.
    split; [|repeat split].
    rewrite process_tasks_without_status.
    replace (without_status st tasks) with (@nil task_compact);
      [reflexivity|].
    symmetry. clear w. induction tasks as [|item rest IH]; [reflexivity|].
    simpl. rewrite (Hall item (or_introl eq_refl)), String.eqb_refl. simpl.
    apply IH. intros i Hi. apply Hall. now right.
Qed.

Lemma status_task_excluded_witness :
  exists acc',
    process_tasks "s" "f_est" "f_act"
      [{| tc_gid := "s"; tc_name := STATUS_TASK_NAME |}] no_totals
      (one_task_world None None)
    = (Ok acc', one_task_world None None) /\
    total_tasks acc' = 0%nat /\ percent_complete acc' = 0%Q.
Proof.
  destruct (proj2 (proj2 (proj1 status_task_excluded "s" "f_est" "f_act"
              [{| tc_gid := "s"; tc_name := STATUS_TASK_NAME |}]
              (one_task_world None None))))
    as (acc' & Hrun & Ht & _ & _ & _ & Hp).
  - intros item [<-|[]]. reflexivity.
  - exists acc'. auto.
Defined.

(** ** Worlds that differ in the counters only *)

Lemma lookup_task_set_calls (tid : string) (n : nat) (w : world) :
  lookup_task tid (set_calls n w) = lookup_task tid w.
Proof. reflexivity. Qed.

Lemma lookup_task_set_ticks (tid : string) (n : nat) (w : world) :
  lookup_task tid (set_ticks n w) = lookup_task tid w.
Proof. reflexivity. Qed.

Lemma lookup_project_set_calls (pid : string) (n : nat) (w : world) :
  lookup_project pid (set_calls n w) = lookup_project pid w.
Proof. reflexivity. Qed.

Lemma lookup_project_set_ticks (pid : string) (n : nat) (w : world) :
  lookup_project pid (set_ticks n w) = lookup_project pid w.
Proof. reflexivity. Qed.

Lemma lookup_project_set_tasks (pid : string) (ts : list task) (w : world) :
  lookup_project pid (set_tasks ts w) = lookup_project pid w.
Proof. reflexivity. Qed.

Lemma lookup_project_set_created (pid : string) (n : nat) (w : world) :
  lookup_project pid (set_created n w) = lookup_project pid w.
Proof. reflexivity. Qed.

Lemma project_tasks_set_calls (pid : string) (n : nat) (w : world) :
  project_tasks pid (set_calls n w) = project_tasks pid w.
Proof. reflexivity. Qed.

Lemma project_tasks_set_ticks (pid : string) (n : nat) (w : world) :
  project_tasks pid (set_ticks n w) = project_tasks pid w.
Proof. reflexivity. Qed.

Lemma eligibleb_set_calls (n : nat) (w : world) (pid : string) :
  eligibleb (set_calls n w) pid = eligibleb w pid.
Proof. reflexivity. Qed.

Lemma eligibleb_frame (pid : string) (w w' : world) :
  w_projects w' = w_projects w -> eligibleb w' pid = eligibleb w pid.
Proof. intros H. unfold eligibleb, lookup_project. now rewrite H. Qed.

Lemma fault_free_frame (w w' : world) :
  w_faults w' = w_faults w -> fault_free w -> fault_free w'.
Proof. intros H Hff n. rewrite H. apply Hff. Qed.

Ltac world_simpl :=
  unfold tick in *;
  cbn [set_calls set_ticks set_tasks set_created set_secret
       w_projects w_tasks WEBHOOK_SECRET w_faults w_calls w_new_gid
       w_created w_clock w_ticks] in *;
  rewrite ?lookup_task_set_calls, ?lookup_task_set_ticks,
    ?lookup_project_set_calls, ?lookup_project_set_ticks,
    ?lookup_project_set_tasks, ?lookup_project_set_created,
    ?project_tasks_set_calls, ?project_tasks_set_ticks in *.

(** ** The helpers never raise *)

Lemma get_custom_fields_eq (pid : string) (w : world) :
  get_custom_fields pid w =
    (Ok (if w_faults w (w_calls w) then (None, None)
         else match lookup_project pid w with
              | Some p => resolve_fields (p_settings p)
              | None => (None, None)
              end), tick w).
Proof.
  unfold get_custom_fields, try_except, bind,
    custom_field_settings_find_by_project, api_call, ret.
  destruct (w_faults w (w_calls w)); [reflexivity|].
  change (lookup_project pid (tick w)) with (lookup_project pid w).
  destruct (lookup_project pid w); reflexivity.
Qed.

Lemma get_project_workspace_eq (pid : string) (w : world) :
  get_project_workspace pid w =
    (Ok (if w_faults w (w_calls w) then None
         else option_map p_workspace (lookup_project pid w)), tick w).
Proof.
  unfold get_project_workspace, try_except, bind, projects_find_by_id,
    api_call, ret.
  destruct (w_faults w (w_calls w)); [reflexivity|].
  change (lookup_project pid (tick w)) with (lookup_project pid w).
  destruct (lookup_project pid w); reflexivity.
Qed.

Lemma get_all_projects_in_workspace_eq (ws : string) (w : world) :
  get_all_projects_in_workspace ws w =
    (Ok (if w_faults w (w_calls w) then []
         else List.filter (fun p => String.eqb (p_workspace p) ws)
                (w_projects w)), tick w).
Proof.
  unfold get_all_projects_in_workspace, try_except, projects_find_all,
    api_call, ret.
  destruct (w_faults w (w_calls w)); reflexivity.
Qed.

Lemma tasks_find_by_project_eq (pid : string) (w : world) :
  tasks_find_by_project pid w =
    if w_faults w (w_calls w) then (Raise, tick w)
    else (Ok (map compact (project_tasks pid w)), tick w).
Proof.
  unfold tasks_find_by_project, api_call.
  destruct (w_faults w (w_calls w)); reflexivity.
Qed.

Lemma find_status_task_eq (pid : string) (w : world) :
  find_status_task pid w =
    (Ok (if w_faults w (w_calls w) then None
         else first_status_task (map compact (project_tasks pid w))),
     tick w).
Proof.
  unfold find_status_task, try_except, bind, ret.
  rewrite tasks_find_by_project_eq.
  destruct (w_faults w (w_calls w)); reflexivity.
Qed.

Lemma create_status_task_eq (pid : string) (w : world) :
  create_status_task pid w =
    if w_faults w (w_calls w) then (Ok None, tick w)
    else match lookup_project pid w with
         | Some p =>
             if String.eqb (p_workspace p) "" then (Ok None, tick w)
             else if w_faults w (S (w_calls w)) then
               (Ok None, tick (tick w))
             else (Ok (Some (w_new_gid w (w_created w))),
                   after_create pid w)
         | None => (Ok None, tick w)
         end.
Proof.
  unfold create_status_task. unfold try_except at 1. unfold bind at 1.
  rewrite get_project_workspace_eq.
  destruct (w_faults w (w_calls w)); [reflexivity|].
  destruct (lookup_project pid w) as [p|]; [|reflexivity]. simpl.
  destruct (String.eqb (p_workspace p) ""); [reflexivity|]. simpl.
  unfold bind, tasks_create_in_workspace, api_call, ret. simpl.
  destruct (w_faults w (S (w_calls w))); reflexivity.
Qed.

(** The answer of [get_custom_fields] passes the test of the callers only
    when the call went through and the project is eligible. *)
Lemma get_custom_fields_truthy (pid : string) (w : world) :
  exists gids,
    get_custom_fields pid w = (Ok gids, tick w) /\
    (truthy (fst gids) && truthy (snd gids) = true ->
     eligibleb w pid = true) /\
    (w_faults w (w_calls w) = false ->
     truthy (fst gids) && truthy (snd gids) = eligibleb w pid).
Proof.
  rewrite get_custom_fields_eq. eexists. split; [reflexivity|].
  unfold eligibleb, has_fields.
  destruct (w_faults w (w_calls w)).
  - split; [discriminate|discriminate].
  - destruct (lookup_project pid w); split; auto; discriminate.
Qed.

(** ** Listings and the store behind them *)

Lemma lookup_task_listed (t : task) (w : world) :
  In t (w_tasks w) -> lookup_task (t_gid t) w <> None.
Proof.
  intros Hin Hnone. unfold lookup_task in Hnone.
  apply (find_none _ _ Hnone) in Hin. simpl in Hin.
  now rewrite String.eqb_refl in Hin.
Qed.

Lemma listing_fetchable (pid : string) (w : world) (item : task_compact) :
  In item (map compact (project_tasks pid w)) ->
  lookup_task (tc_gid item) w <> None.
Proof.
  intros Hin. apply in_map_iff in Hin. destruct Hin as (t & <- & Hin).
  unfold project_tasks in Hin. apply filter_In in Hin.
  apply lookup_task_listed. tauto.
Qed.

Lemma lookup_task_app (tid : string) (t : task) (w w' : world)
    (extra : list task) :
  w_tasks w' = w_tasks w ++ extra ->
  lookup_task tid w = Some t -> lookup_task tid w' = Some t.
Proof.
  unfold lookup_task. intros -> H.
  induction (w_tasks w) as [|x l IH]; [discriminate|].
  simpl in *. destruct (String.eqb (t_gid x) tid); [exact H|auto].
Qed.

Lemma first_status_task_In (l : list task_compact) (st : string) :
  first_status_task l = Some st ->
  exists item, In item l /\ tc_gid item = st /\ tc_name item = STATUS_TASK_NAME.
Proof.
  unfold first_status_task. intros H.
  destruct (List.find _ l) as [item|] eqn:E; [|discriminate].
  apply find_some in E. destruct E as [Hin Hn]. simpl in H.
  exists item. repeat split; [exact Hin|congruence|now apply String.eqb_eq].
Qed.


Lemma first_status_task_app (l : list task_compact) (c : task_compact) :
  first_status_task l = None ->
  tc_name c = STATUS_TASK_NAME ->
  first_status_task (l ++ [c]) = Some (tc_gid c).
Proof.
  unfold first_status_task. intros H Hc.
  induction l as [|x l IH]; simpl in *.
  - now rewrite Hc, String.eqb_refl.
  - destruct (String.eqb (tc_name x) STATUS_TASK_NAME); [discriminate|].
    now apply IH.
Qed.

Lemma first_status_task_not_empty (pid : string) (w : world) :
  gids_not_empty w ->
  truthy (first_status_task (map compact (project_tasks pid w))) = false ->
  first_status_task (map compact (project_tasks pid w)) = None.
Proof.
  intros Hg Hf.
  destruct (first_status_task (map compact (project_tasks pid w)))
    as [st|] eqn:E; [|reflexivity].
  destruct (first_status_task_In _ _ E) as (item & Hin & Hgid & _).
  apply in_map_iff in Hin. destruct Hin as (t & <- & Hin).
  unfold project_tasks in Hin. apply filter_In in Hin.
  destruct Hin as [Hin _]. apply Hg in Hin.
  simpl in Hf. apply negb_false_iff in Hf. apply String.eqb_eq in Hf.
  simpl in Hgid. congruence.
Qed.



(** ** Writing a note *)

Lemma write_notes_gid (st n : string) (t : task) :
  t_gid (write_notes st n t) = t_gid t.
Proof. unfold write_notes. now destruct (String.eqb (t_gid t) st). Qed.

Lemma write_notes_name (st n : string) (t : task) :
  t_name (write_notes st n t) = t_name t.
Proof. unfold write_notes. now destruct (String.eqb (t_gid t) st). Qed.

Lemma write_notes_projects (st n : string) (t : task) :
  t_projects (write_notes st n t) = t_projects t.
Proof. unfold write_notes. now destruct (String.eqb (t_gid t) st). Qed.

Lemma write_notes_costs (st n e a : string) (t : task) :
  extract_costs e a (write_notes st n t) = extract_costs e a t.
Proof. unfold write_notes. now destruct (String.eqb (t_gid t) st). Qed.

Lemma write_notes_notes (st n : string) (t : task) :
  t_gid t = st -> t_notes (write_notes st n t) = n.
Proof.
  intros H. unfold write_notes. rewrite H, String.eqb_refl. reflexivity.
Qed.

Lemma filter_map_comm {A B} (f : A -> B) (p : B -> bool) (q : A -> bool)
    (l : list A) :
  (forall x, p (f x) = q x) ->
  List.filter p (map f l) = map f (List.filter q l).
Proof.
  intros H. induction l as [|x l IH]; [reflexivity|].
  simpl. rewrite H. destruct (q x); simpl; now rewrite IH.
Qed.

Lemma find_written (g st n : string) (ts : list task) :
  List.find (fun t => String.eqb (t_gid t) g) (map (write_notes st n) ts) =
    option_map (write_notes st n)
      (List.find (fun t => String.eqb (t_gid t) g) ts).
Proof.
  induction ts as [|t ts IH]; [reflexivity|].
  simpl. rewrite write_notes_gid.
  destruct (String.eqb (t_gid t) g); [reflexivity|exact IH].
Qed.

Lemma find_gid (g : string) (ts : list task) (t : task) :
  List.find (fun t => String.eqb (t_gid t) g) ts = Some t -> t_gid t = g.
Proof.
  intros H. apply find_some in H. destruct H as [_ H].
  now apply String.eqb_eq.
Qed.

Lemma lookup_task_written (g st n : string) (w w' : world) :
  w_tasks w' = map (write_notes st n) (w_tasks w) ->
  lookup_task g w' = option_map (write_notes st n) (lookup_task g w).
Proof. intros H. unfold lookup_task. rewrite H. apply find_written. Qed.

Lemma project_tasks_written (pid st n : string) (w w' : world)
    (ts : list task) :
  w_tasks w = ts ->
  w_tasks w' = map (write_notes st n) ts ->
  project_tasks pid w' = map (write_notes st n) (project_tasks pid w).
Proof.
  intros H H'. unfold project_tasks. rewrite H, H'.
  apply filter_map_comm. intros t. now rewrite write_notes_projects.
Qed.



Lemma listing_written (pid st n : string) (w w' : world) :
  w_tasks w' = map (write_notes st n) (w_tasks w) ->
  map compact (project_tasks pid w') = map compact (project_tasks pid w).
Proof.
  intros H.
  rewrite (project_tasks_written pid st n w w' (w_tasks w) eq_refl H).
  rewrite map_map. apply map_ext. intros t. unfold compact.
  now rewrite write_notes_gid, write_notes_name.
Qed.

(** ** The stages of a pass *)

Lemma update_project_metrics_stages (pid : string) :
  update_project_metrics pid =
    try_except
      (let* current_time := now in
       let* gids := get_custom_fields pid in
       match gids with
       | (Some e, Some a) =>
           if negb (truthy (fst gids)) || negb (truthy (snd gids)) then
             ret false
           else
             let* tasks := tasks_find_by_project pid in
             with_status_task pid e a tasks current_time
       | _ => ret false
       end)
      (ret false).
Proof. reflexivity. Qed.

(** A pass never raises. *)
Lemma update_project_metrics_total (pid : string) (w : world) :
  exists b w', update_project_metrics pid w = (Ok b, w').
Proof.
  rewrite update_project_metrics_stages. unfold try_except.
  match goal with |- context [match ?m w with _ => _ end] =>
    destruct (m w) as [[b|] w'] end; unfold ret; eauto.
Qed.

Lemma write_back_fault_free (pid st e a : string)
    (tasks : list task_compact) (time : string) (proj : project)
    (w : world) :
  fault_free w ->
  (forall item, In item tasks -> tc_gid item <> st ->
     lookup_task (tc_gid item) w <> None) ->
  lookup_project pid w = Some proj ->
  lookup_task st w <> None ->
  exists n,
    write_back pid st e a tasks time w =
      (Ok true,
       set_tasks
         (map (write_notes st
                 (render_summary (display_name proj)
                    (aggregate st e a w tasks no_totals) time))
            (w_tasks w))
         (set_calls n w)).
Proof.
  intros Hff Hall Hp Hst. unfold write_back. unfold bind at 1.
  destruct (process_tasks_fault_free st e a tasks no_totals w Hff Hall)
    as [n ->].
  unfold bind at 1. unfold projects_find_by_id, api_call. world_simpl.
  rewrite (Hff n), Hp.
  unfold bind, tasks_update, api_call, ret. world_simpl.
  rewrite (Hff (S n)).
  destruct (lookup_task st w); [|congruence].
  exists (S (S n)). reflexivity.
Qed.

(** Whatever fails, the loop and the write either end with the note
    written and [True] returned, or raise with the store as it was. *)
Lemma write_back_any (pid st e a : string) (tasks : list task_compact)
    (time : string) (w : world) (r : result bool) (w' : world) :
  write_back pid st e a tasks time w = (r, w') ->
  (r = Ok true /\ exists notes,
     w_tasks w' = map (write_notes st notes) (w_tasks w)) \/
  (r = Raise /\ w_tasks w' = w_tasks w).
Proof.
  unfold write_back. unfold bind at 1.
  destruct (process_tasks st e a tasks no_totals w) as [[acc|] w1] eqn:E1;
    apply process_tasks_calls in E1; destruct E1 as (n & -> & _).
  2:{ intros H. inversion H; subst. right. split; reflexivity. }
  unfold bind at 1. unfold projects_find_by_id, api_call. world_simpl.
  destruct (w_faults w n).
  { intros H. inversion H; subst. right. split; reflexivity. }
  destruct (lookup_project pid w) as [proj|].
  2:{ intros H. inversion H; subst. right. split; reflexivity. }
  unfold bind, tasks_update, api_call, ret. world_simpl.
  destruct (w_faults w (S n)).
  { intros H. inversion H; subst. right. split; reflexivity. }
  destruct (lookup_task st w).
  - intros H. inversion H; subst. left. split; [reflexivity|].
    eexists. reflexivity.
  - intros H. inversion H; subst. right. split; reflexivity.
Qed.










(** A loop that returns has computed the totals read off the store. *)
Lemma process_tasks_ok_aggregate (st e a : string)
    (tasks : list task_compact) :
  forall acc w acc' w',
    process_tasks st e a tasks acc w = (Ok acc', w') ->
    acc' = aggregate st e a w tasks acc.
Proof.
  induction tasks as [|item rest IH]; intros acc w acc' w' H; simpl in H.
  - inversion H; subst. reflexivity.
  - unfold bind in H. unfold aggregate. simpl. unfold aggregate_step at 2.
    destruct (String.eqb_spec (tc_gid item) st) as [Heq|Hne].
    + rewrite (process_task_status _ _ _ _ _ _ Heq) in H.
      eapply IH; eauto.
    + rewrite (process_task_other _ _ _ _ _ _ Hne) in H.
      destruct (w_faults w (w_calls w)); [discriminate|].
      destruct (lookup_task (tc_gid item) w) as [details|]; [|discriminate].
      apply IH in H. exact H.
Qed.

(** What a write that returned [True] has done. *)
Lemma write_back_true (pid st e a : string) (tasks : list task_compact)
    (time : string) (w w' : world) :
  write_back pid st e a tasks time w = (Ok true, w') ->
  exists proj n,
    lookup_project pid w = Some proj /\
    lookup_task st w <> None /\
    w' = set_tasks
           (map (write_notes st
                   (render_summary (display_name proj)
                      (aggregate st e a w tasks no_totals) time))
              (w_tasks w))
           (set_calls n w).
Proof.
  unfold write_back. unfold bind at 1.
  destruct (process_tasks st e a tasks no_totals w) as [[acc|] w1] eqn:E1;
    [|discriminate].
  pose proof (process_tasks_ok_aggregate _ _ _ _ _ _ _ _ E1) as Hacc.
  apply process_tasks_calls in E1. destruct E1 as (n & -> & _).
  unfold bind at 1. unfold projects_find_by_id, api_call. world_simpl.
  destruct (w_faults w n); [discriminate|].
  destruct (lookup_project pid w) as [proj|]; [|discriminate].
  unfold bind, tasks_update, api_call, ret. world_simpl.
  destruct (w_faults w (S n)); [discriminate|].
  destruct (lookup_task st w) eqn:El; [|discriminate].
  intros H. inversion H; subst. exists proj, (S (S n)).
  split; [reflexivity|]. split; [discriminate|reflexivity].
Qed.

(** A pass that returned [True] without adding a task has found the status
    task with a listing that did not fail, and has written on it the
    summary of the totals read off the store. *)
Lemma update_project_metrics_true_found (pid : string) (w w' : world) :
  update_project_metrics pid w = (Ok true, w') ->
  length (w_tasks w') = length (w_tasks w) ->
  exists proj e a st,
    lookup_project pid w = Some proj /\
    resolve_fields (p_settings proj) = (Some e, Some a) /\
    first_status_task (map compact (project_tasks pid w)) = Some st /\
    lookup_task st w <> None /\
    w_tasks w' =
      map (write_notes st
             (render_summary (display_name proj)
                (aggregate st e a w (map compact (project_tasks pid w))
                   no_totals)
                (w_clock w (w_ticks w)))) (w_tasks w) /\
    pass_frame w w'.
Proof.
  rewrite update_project_metrics_stages. unfold try_except.
  unfold bind at 1. unfold now. unfold bind at 1.
  rewrite get_custom_fields_eq. world_simpl.
  destruct (w_faults w (w_calls w)); [discriminate|].
  destruct (lookup_project pid w) as [proj|] eqn:Hp; [|discriminate].
  destruct (resolve_fields (p_settings proj)) as [[e|] [a|]] eqn:Hr;
    try discriminate.
  destruct (negb (truthy (fst (Some e, Some a)))
            || negb (truthy (snd (Some e, Some a)))); [discriminate|].
  unfold bind at 1. rewrite tasks_find_by_project_eq. world_simpl.
  destruct (w_faults w (S (w_calls w))); [discriminate|].
  unfold with_status_task. unfold bind at 1. rewrite find_status_task_eq.
  world_simpl. unfold bind at 1.
  set (listing := map compact (project_tasks pid w)).
  set (found := if w_faults w (S (S (w_calls w))) then None
                else first_status_task listing).
  destruct (truthy found) eqn:Ef; cbn [negb].
  - unfold ret at 1. destruct found as [st|] eqn:Efound; [|discriminate].
    rewrite Ef. cbn [negb].
    match goal with |- context [write_back ?p ?s ?e ?a ?l ?t ?w0] =>
      destruct (write_back p s e a l t w0) as [[b|] w1] eqn:E end;
      [|discriminate].
    intros H _. inversion H; subst.
    apply write_back_true in E.
    destruct E as (proj' & n & Hp' & Hl & ->). world_simpl.
    rewrite Hp in Hp'. inversion Hp'; subst proj'.
    exists proj, e, a, st. split; [reflexivity|]. split; [exact Hr|].
    split.
    { unfold found in Efound.
      destruct (w_faults w (S (S (w_calls w)))); [discriminate|].
      exact Efound. }
    split; [exact Hl|]. split; [reflexivity|]. repeat split.
  - rewrite create_status_task_eq. world_simpl.
    destruct (w_faults w (S (S (S (w_calls w))))); [discriminate|].
    rewrite Hp.
    destruct (String.eqb (p_workspace proj) ""); [discriminate|].
    destruct (w_faults w (S (S (S (S (w_calls w)))))); [discriminate|].
    cbn [truthy].
    destruct (String.eqb (w_new_gid w (w_created w)) ""); cbn [negb];
      [discriminate|].
    match goal with |- context [write_back ?p ?s ?e ?a ?l ?t ?w0] =>
      destruct (write_back p s e a l t w0) as [[b|] w1] eqn:E end;
      [|discriminate].
    intros H Hlen. inversion H; subst. exfalso.
    apply write_back_true in E. destruct E as (proj' & n & _ & _ & ->).
    unfold after_create in Hlen.
    cbn [w_tasks set_tasks set_calls set_created] in Hlen.
    rewrite length_map, length_app in Hlen. simpl in Hlen. lia.
Qed.


(** What the plan of a pass says about the store. *)
Lemma pass_plan_Some (pid : string) (w : world) (proj : project)
    (e a st : string) (extra : list task) :
  pass_plan pid w = Some (proj, e, a, st, extra) ->
  lookup_project pid w = Some proj /\
  resolve_fields (p_settings proj) = (Some e, Some a) /\
  has_fields (p_settings proj) = true /\
  st <> ""%string /\
  ((first_status_task (map compact (project_tasks pid w)) = Some st /\
    extra = []) \/
   (truthy (first_status_task (map compact (project_tasks pid w))) = false /\
    st = w_new_gid w (w_created w) /\
    extra = [new_status_task pid w])).
Proof.
  unfold pass_plan.
  destruct (lookup_project pid w) as [p|]; [|discriminate].
  destruct (resolve_fields (p_settings p)) as [[e'|] [a'|]] eqn:Hr;
    try discriminate.
  destruct (has_fields (p_settings p)) eqn:Hel; [|discriminate].
  cbv zeta.
  destruct (first_status_task (map compact (project_tasks pid w)))
    as [st'|] eqn:Hf; cbn [truthy option_map].
  - destruct (String.eqb_spec st' "") as [He|Hne]; cbn [negb].
    + destruct (String.eqb (p_workspace p) ""); [discriminate|].
      destruct (String.eqb_spec (w_new_gid w (w_created w)) "");
        [discriminate|].
      intros H. inversion H; subst. repeat split; auto.
    + intros H. inversion H; subst. repeat split; auto.
  - destruct (String.eqb (p_workspace p) ""); [discriminate|].
    destruct (String.eqb_spec (w_new_gid w (w_created w)) "");
      [discriminate|].
    intros H. inversion H; subst. repeat split; auto.
Qed.

Lemma update_project_metrics_fault_free (pid : string) (w : world) :
  fault_free w ->
  exists w',
    pass_frame w w' /\
    match pass_plan pid w with
    | Some (proj, e, a, st, extra) =>
        update_project_metrics pid w = (Ok true, w') /\
        w_tasks w' =
          map (write_notes st
                 (render_summary (display_name proj)
                    (aggregate st e a w
                       (map compact (project_tasks pid w)) no_totals)
                    (w_clock w (w_ticks w))))
            (w_tasks w ++ extra)
    | None => update_project_metrics pid w = (Ok false, w')
    end.
Proof.
  intros Hff. destruct (update_project_metrics pid w) as [r w'] eqn:E.
  exists w'. revert E.
  rewrite update_project_metrics_stages. unfold try_except.
  unfold bind at 1. unfold now. unfold bind at 1.
  rewrite get_custom_fields_eq. world_simpl. rewrite (Hff _).
  unfold pass_plan.
  destruct (lookup_project pid w) as [proj|] eqn:Hp.
  2:{ unfold ret. intros E. inversion E; subst. repeat split. }
  destruct (resolve_fields (p_settings proj)) as [[e|] [a|]] eqn:Hr;
    try solve [unfold ret; intros E; inversion E; subst; repeat split].
  unfold has_fields. rewrite Hr.
  destruct (truthy (fst (Some e, Some a))
            && truthy (snd (Some e, Some a))) eqn:Ht.
  2:{ apply andb_false_iff in Ht.
      replace (negb (truthy (fst (Some e, Some a)))
               || negb (truthy (snd (Some e, Some a)))) with true
        by (destruct Ht as [-> | ->]; simpl;
            [reflexivity|now rewrite orb_true_r]).
      unfold ret; intros E; inversion E; subst; repeat split. }
  apply andb_true_iff in Ht. destruct Ht as [Ht1 Ht2]. rewrite Ht1, Ht2.
  cbn [negb orb]. unfold bind at 1.
  rewrite tasks_find_by_project_eq. world_simpl. rewrite (Hff _).
  unfold with_status_task. unfold bind at 1. rewrite find_status_task_eq.
  world_simpl. rewrite (Hff _). unfold bind at 1.
  set (listing := map compact (project_tasks pid w)).
  assert (Hfetch : forall item, In item listing ->
            lookup_task (tc_gid item) w <> None)
    by (intros item; apply listing_fetchable).
  cbv zeta.
  destruct (truthy (first_status_task listing)) eqn:Ef; cbn [negb].
  - destruct (truthy_Some _ Ef) as (st & Hst & Hne).
    rewrite Hst. unfold ret at 1. cbn [option_map truthy].
    apply String.eqb_neq in Hne. rewrite Hne. cbn [negb].
    destruct (first_status_task_In _ _ Hst) as (item & Hin & Hg & _).
    match goal with |- context [write_back ?p ?s ?e ?a ?l ?t ?w0] =>
      destruct (write_back_fault_free p s e a l t proj w0) as [n Hn] end.
    + intros k. apply Hff.
    + intros i Hi _. apply (Hfetch i Hi).
    + exact Hp.
    + rewrite <- Hg. apply (Hfetch item Hin).
    + rewrite Hn. intros E. inversion E; subst.
      split; [repeat split|]. split; [reflexivity|].
      rewrite app_nil_r. reflexivity.
  - rewrite create_status_task_eq. world_simpl. rewrite !(Hff _), Hp.
    destruct (String.eqb (p_workspace proj) "").
    { unfold ret. intros E. inversion E; subst. repeat split. }
    cbn [truthy].
    destruct (String.eqb (w_new_gid w (w_created w)) "") eqn:Eg; cbn [negb].
    { unfold ret. intros E. inversion E; subst. repeat split. }
    match goal with |- context [write_back ?p ?s ?e ?a ?l ?t ?w0] =>
      set (w5 := w0);
      destruct (write_back_fault_free p s e a l t proj w5) as [n Hn] end.
    + intros k. apply Hff.
    + intros i Hi _.
      destruct (lookup_task (tc_gid i) w) as [d|] eqn:Ed;
        [|exfalso; exact (Hfetch i Hi Ed)].
      rewrite (lookup_task_app (tc_gid i) d w w5 [new_status_task pid w]);
        [discriminate|reflexivity|exact Ed].
    + exact Hp.
    + apply (lookup_task_listed (new_status_task pid w) w5).
      unfold w5, after_create. world_simpl. apply in_or_app. right.
      now left.
    + rewrite Hn. intros E. inversion E; subst.
      split; [repeat split|]. split; [reflexivity|].
      cbn [w_tasks set_tasks].
      rewrite <- (aggregate_ext (w_new_gid w (w_created w)) e a w w5 listing);
        [reflexivity|].
      intros i Hi _.
      destruct (lookup_task (tc_gid i) w) as [d|] eqn:Ed;
        [|exfalso; exact (Hfetch i Hi Ed)].
      exists d, d. split; [reflexivity|]. split; [|reflexivity].
      apply (lookup_task_app (tc_gid i) d w w5 [new_status_task pid w]);
        [reflexivity|exact Ed].
Qed.

(** ** Which projects a request updates *)

Lemma add_task_projects_sound (projects : list string) :
  forall ptu w,
    exists l n,
      add_task_projects projects ptu w = (Ok l, set_calls n w) /\
      (forall pid, In pid l -> In pid ptu \/ eligibleb w pid = true).
Proof.
  induction projects as [|pid rest IH]; intros ptu w; simpl.
  - exists ptu, (w_calls w). split; [unfold ret; now destruct w|auto].
  - destruct (member pid ptu).
    + apply IH.
    + unfold bind.
      destruct (get_custom_fields_truthy pid w) as (gids & -> & Hel & _).
      destruct (truthy (fst gids) && truthy (snd gids)).
      * destruct (IH (ptu ++ [pid]) (tick w)) as (l & n & -> & Hl).
        exists l, n. split; [reflexivity|].
        intros q Hq. destruct (Hl q Hq) as [Hin|Hq'].
        -- apply in_app_or in Hin. destruct Hin as [Hin|[<-|[]]]; auto.
        -- right. exact Hq'.
      * destruct (IH ptu (tick w)) as (l & n & -> & Hl).
        exists l, n. split; [reflexivity|]. exact Hl.
Qed.

Lemma scan_events_sound (evs : list event) :
  forall ptu w,
    exists l n,
      scan_events evs ptu w = (Ok l, set_calls n w) /\
      (forall pid, In pid l -> In pid ptu \/ eligibleb w pid = true).
Proof.
  induction evs as [|ev rest IH]; intros ptu w; simpl.
  - exists ptu, (w_calls w). split; [unfold ret; now destruct w|auto].
  - destruct (is_task_event ev); [|apply IH].
    destruct (event_task_gid ev) as [task_gid|]; [|apply IH].
    destruct (truthy (Some task_gid)); [|apply IH].
    unfold bind at 1. unfold try_except, bind, tasks_find_by_id, api_call.
    destruct (w_faults w (w_calls w)).
    { unfold ret. destruct (IH ptu (tick w)) as (l & n & -> & Hl).
      exists l, n. split; [reflexivity|exact Hl]. }
    destruct (lookup_task task_gid (tick w)) as [t|].
    2:{ unfold ret. destruct (IH ptu (tick w)) as (l & n & -> & Hl).
      exists l, n. split; [reflexivity|exact Hl]. }
    destruct (add_task_projects_sound (t_projects t) ptu (tick w))
      as (l1 & n1 & -> & Hl1).
    destruct (IH l1 (set_calls n1 (tick w))) as (l & n & -> & Hl).
    exists l, n. split; [reflexivity|].
    intros q Hq. destruct (Hl q Hq) as [Hin|Hq']; [|now right].
    apply Hl1 in Hin. exact Hin.
Qed.

Lemma keep_eligible_sound (all_projects : list project) :
  forall ptu w,
    exists l n,
      keep_eligible all_projects ptu w = (Ok l, set_calls n w) /\
      (forall pid, In pid l -> In pid ptu \/ eligibleb w pid = true).
Proof.
  induction all_projects as [|p rest IH]; intros ptu w; simpl.
  - exists ptu, (w_calls w). split; [unfold ret; now destruct w|auto].
  - unfold bind.
    destruct (get_custom_fields_truthy (p_gid p) w) as (gids & -> & Hel & _).
    destruct (truthy (fst gids) && truthy (snd gids)).
    + destruct (IH (ptu ++ [p_gid p]) (tick w)) as (l & n & -> & Hl).
      exists l, n. split; [reflexivity|].
      intros q Hq. destruct (Hl q Hq) as [Hin|Hq'].
      * apply in_app_or in Hin. destruct Hin as [Hin|[<-|[]]]; auto.
      * right. exact Hq'.
    + destruct (IH ptu (tick w)) as (l & n & -> & Hl).
      exists l, n. split; [reflexivity|]. exact Hl.
Qed.

Lemma workspace_projects_sound (w : world) :
  exists l n,
    workspace_projects w = (Ok l, set_calls n w) /\
    (forall pid, In pid l -> eligibleb w pid = true).
Proof.
  unfold workspace_projects. unfold bind at 1.
  rewrite get_project_workspace_eq.
  set (ws := if w_faults w (w_calls w) then None
             else option_map p_workspace
                    (lookup_project TEMPLATE_PROJECT_ID w)).
  destruct ws as [ws|];
    [|exists [], (S (w_calls w)); split; [reflexivity|intros ? []]].
  destruct (truthy (Some ws));
    [|exists [], (S (w_calls w)); split; [reflexivity|intros ? []]].
  unfold bind. rewrite get_all_projects_in_workspace_eq.
  match goal with |- context [keep_eligible ?l [] ?w0] =>
    destruct (keep_eligible_sound l [] w0) as (l1 & n & -> & Hl) end.
  exists l1, n. split; [reflexivity|].
  intros q Hq. destruct (Hl q Hq) as [[]|H]. exact H.
Qed.

Lemma event_projects_sound (data : option event_data) (w : world) :
  exists l n,
    event_projects data w = (Ok l, set_calls n w) /\
    (forall pid, In pid l -> eligibleb w pid = true).
Proof.
  unfold event_projects.
  destruct data as [[[evs|]]|];
    try solve [exists [], (w_calls w); split;
               [unfold ret; now destruct w|intros ? []]].
  cbn [events].
  destruct (scan_events_sound evs [] w) as (l & n & -> & Hl).
  exists l, n. split; [reflexivity|].
  intros q Hq. destruct (Hl q Hq) as [[]|H]. exact H.
Qed.

Lemma determine_projects_to_update_sound (data : option event_data)
    (w : world) :
  exists l n,
    determine_projects_to_update data w = (Ok l, set_calls n w) /\
    (forall pid, In pid l -> eligibleb w pid = true).
Proof.
  unfold determine_projects_to_update, bind.
  destruct (event_projects_sound data w) as (l & n & -> & Hl).
  destruct l as [|pid l].
  - destruct (workspace_projects_sound (set_calls n w))
      as (l1 & n1 & -> & Hl1).
    exists l1, n1. split; [reflexivity|exact Hl1].
  - exists (pid :: l), n. split; [reflexivity|exact Hl].
Qed.

Lemma get_custom_fields_test (pid : string) (w : world) :
  exists gids,
    get_custom_fields pid w = (Ok gids, tick w) /\
    truthy (fst gids) && truthy (snd gids) =
      negb (w_faults w (w_calls w)) && eligibleb w pid.
Proof.
  rewrite get_custom_fields_eq. eexists. split; [reflexivity|].
  unfold eligibleb, has_fields.
  destruct (w_faults w (w_calls w)); [reflexivity|].
  destruct (lookup_project pid w); reflexivity.
Qed.

Lemma resolved_projects_set_calls (n : nat) (w : world) (ps : list project) :
  forall k, resolved_projects (set_calls n w) k ps = resolved_projects w k ps.
Proof.
  induction ps as [|p rest IH]; intros k; simpl; [|rewrite IH]; reflexivity.
Qed.

Lemma keep_eligible_resolved (all_projects : list project) :
  forall ptu w,
    exists n,
      keep_eligible all_projects ptu w =
        (Ok (ptu ++ resolved_projects w (w_calls w) all_projects),
         set_calls n w).
Proof.
  induction all_projects as [|p rest IH]; intros ptu w; simpl.
  - exists (w_calls w). rewrite app_nil_r. unfold ret. now destruct w.
  - unfold bind.
    destruct (get_custom_fields_test (p_gid p) w) as (gids & -> & ->).
    destruct (negb (w_faults w (w_calls w)) && eligibleb w (p_gid p)).
    + destruct (IH (ptu ++ [p_gid p]) (tick w)) as [n ->].
      exists n. unfold tick. cbn [w_calls set_calls].
      rewrite resolved_projects_set_calls, <- app_assoc. reflexivity.
    + destruct (IH ptu (tick w)) as [n ->]. exists n.
      unfold tick. cbn [w_calls set_calls].
      rewrite resolved_projects_set_calls. reflexivity.
Qed.

Lemma workspace_projects_expected (w : world) :
  exists n, workspace_projects w = (Ok (expected_fallback w), set_calls n w).
Proof.
  unfold workspace_projects, expected_fallback, enumerated_projects.
  unfold bind at 1. rewrite get_project_workspace_eq.
  destruct (w_faults w (w_calls w));
    [exists (S (w_calls w)); reflexivity|].
  destruct (lookup_project TEMPLATE_PROJECT_ID w) as [template|];
    [|exists (S (w_calls w)); reflexivity].
  cbn [option_map truthy].
  destruct (String.eqb (p_workspace template) "");
    [exists (S (w_calls w)); reflexivity|].
  cbn [negb]. unfold bind. rewrite get_all_projects_in_workspace_eq.
  world_simpl.
  match goal with |- context [keep_eligible ?l [] ?w0] =>
    destruct (keep_eligible_resolved l [] w0) as [n ->] end.
  exists n. world_simpl. rewrite !resolved_projects_set_calls.
  destruct (w_faults w (S (w_calls w))); reflexivity.
Qed.

Lemma resolved_projects_fault_free (w : world) (ps : list project) :
  fault_free w ->
  forall k,
    resolved_projects w k ps =
      map p_gid (List.filter (fun p => eligibleb w (p_gid p)) ps).
Proof.
  intros Hff. induction ps as [|p rest IH]; intros k; simpl; [reflexivity|].
  rewrite (Hff k), IH. simpl. now destruct (eligibleb w (p_gid p)).
Qed.

Lemma expected_fallback_fault_free (w : world) :
  fault_free w -> expected_fallback w = expected_workspace_projects w.
Proof.
  intros Hff. unfold expected_fallback, expected_workspace_projects.
  rewrite (resolved_projects_fault_free w _ Hff).
  unfold enumerated_projects. rewrite !(Hff _).
  destruct (lookup_project TEMPLATE_PROJECT_ID w) as [template|];
    [|reflexivity].
  destruct (String.eqb (p_workspace template) ""); reflexivity.
Qed.

Lemma determine_fallback_any (data : option event_data) (w w1 : world) :
  event_projects data w = (Ok [], w1) ->
  exists n,
    determine_projects_to_update data w =
      (Ok (expected_fallback w1), set_calls n w).
Proof.
  intros He. unfold determine_projects_to_update, bind. rewrite He.
  destruct (event_projects_sound data w) as (l & n & He' & _).
  rewrite He in He'. inversion He'; subst.
  destruct (workspace_projects_expected (set_calls n w)) as [n1 ->].
  exists n1. reflexivity.
Qed.

Lemma keep_eligible_fault_free (all_projects : list project) :
  forall ptu w,
    fault_free w ->
    exists n,
      keep_eligible all_projects ptu w =
        (Ok (ptu ++ map p_gid
                      (List.filter (fun p => eligibleb w (p_gid p))
                         all_projects)), set_calls n w).
Proof.
  induction all_projects as [|p rest IH]; intros ptu w Hff; simpl.
  - exists (w_calls w). rewrite app_nil_r. unfold ret. now destruct w.
  - unfold bind.
    destruct (get_custom_fields_truthy (p_gid p) w) as (gids & -> & _ & Hel).
    rewrite (Hel (Hff _)).
    destruct (eligibleb w (p_gid p)).
    + destruct (IH (ptu ++ [p_gid p]) (tick w) Hff) as [n ->].
      exists n. simpl. now rewrite <- app_assoc.
    + destruct (IH ptu (tick w) Hff) as [n ->]. exists n. reflexivity.
Qed.

Lemma workspace_projects_fault_free (w : world) :
  fault_free w ->
  exists n,
    workspace_projects w = (Ok (expected_workspace_projects w), set_calls n w).
Proof.
  intros Hff. unfold workspace_projects, expected_workspace_projects.
  unfold bind at 1. rewrite get_project_workspace_eq, (Hff _).
  destruct (lookup_project TEMPLATE_PROJECT_ID w) as [template|];
    [|exists (S (w_calls w)); reflexivity].
  cbn [option_map truthy].
  destruct (String.eqb (p_workspace template) "");
    [exists (S (w_calls w)); reflexivity|].
  cbn [negb]. unfold bind. rewrite get_all_projects_in_workspace_eq.
  world_simpl. rewrite (Hff _).
  match goal with |- context [keep_eligible ?l [] ?w0] =>
    destruct (keep_eligible_fault_free l [] w0) as [n ->] end.
  { intros k. apply Hff. }
  exists n. reflexivity.
Qed.

Lemma determine_fallback (data : option event_data) (w w1 : world) :
  fault_free w ->
  event_projects data w = (Ok [], w1) ->
  exists n,
    determine_projects_to_update data w =
      (Ok (expected_workspace_projects w), set_calls n w).
Proof.
  intros Hff He. unfold determine_projects_to_update, bind. rewrite He.
  destruct (event_projects_sound data w) as (l & n & He' & _).
  rewrite He in He'. inversion He'; subst.
  destruct (workspace_projects_fault_free (set_calls n w)) as [n1 ->].
  { intros k. apply Hff. }
  exists n1. reflexivity.
Qed.

Lemma determine_one_task (g P1 P2 : string) (t : task) (w : world) :
  fault_free w ->
  g <> ""%string ->
  lookup_task g w = Some t ->
  t_projects t = [P1; P2] ->
  eligibleb w P1 = true ->
  eligibleb w P2 = false ->
  exists n,
    determine_projects_to_update (Some (task_event g)) w =
      (Ok [P1], set_calls n w).
Proof.
  intros Hff Hg Ht Hps H1 H2.
  unfold determine_projects_to_update. unfold bind at 1.
  unfold event_projects, task_event. cbn [events scan_events].
  unfold is_task_event, event_task_gid.
  cbn [ev_resource resource_type resource_gid].
  rewrite bool_decide_eq_true_2 by reflexivity.
  cbn [truthy]. apply String.eqb_neq in Hg. rewrite Hg. cbn [negb].
  unfold bind at 1. unfold try_except. unfold bind at 1.
  unfold tasks_find_by_id, api_call. rewrite (Hff _). world_simpl.
  rewrite Ht, Hps. cbn [add_task_projects member existsb].
  unfold bind at 1.
  destruct (get_custom_fields_truthy P1 (set_calls (S (w_calls w)) w))
    as (gids & -> & _ & Hel).
  rewrite (Hel (Hff _)), eligibleb_set_calls, H1. cbn [app member existsb].
  destruct (String.eqb_spec P2 P1) as [->|Hne]; [congruence|]. cbn [orb].
  unfold bind at 1.
  match goal with |- context [get_custom_fields P2 ?w0] =>
    destruct (get_custom_fields_truthy P2 w0) as (gids2 & -> & _ & Hel2) end.
  rewrite (Hel2 (Hff _)). world_simpl.
  rewrite !eligibleb_set_calls, H2. unfold ret. eexists. reflexivity.
Qed.

Lemma resolve_fields_estimated (settings : list custom_field) :
  forall init,
    fst (fold_left scan_setting settings init) <> None ->
    fst init <> None \/
    exists s, In s settings /\ cf_name s = ESTIMATED_COST_FIELD.
Proof.
  induction settings as [|s rest IH]; intros init H; simpl in H; [now left|].
  apply IH in H. destruct H as [H|(s' & Hin & Hn)].
  - unfold scan_setting in H.
    destruct (String.eqb_spec (cf_name s) ESTIMATED_COST_FIELD) as [He|_].
    + right. exists s. split; [now left|exact He].
    + destruct (String.eqb (cf_name s) ACTUAL_COST_FIELD); now left.
  - right. exists s'. split; [now right|exact Hn].
Qed.

Lemma resolve_fields_actual (settings : list custom_field) :
  forall init,
    snd (fold_left scan_setting settings init) <> None ->
    snd init <> None \/
    exists s, In s settings /\ cf_name s = ACTUAL_COST_FIELD.
Proof.
  induction settings as [|s rest IH]; intros init H; simpl in H; [now left|].
  apply IH in H. destruct H as [H|(s' & Hin & Hn)].
  - unfold scan_setting in H.
    destruct (String.eqb (cf_name s) ESTIMATED_COST_FIELD); [now left|].
    destruct (String.eqb_spec (cf_name s) ACTUAL_COST_FIELD) as [He|_].
    + right. exists s. split; [now left|exact He].
    + now left.
  - right. exists s'. split; [now right|exact Hn].
Qed.

Lemma eligibleb_settings (w : world) (pid : string) :
  eligibleb w pid = true ->
  exists p, lookup_project pid w = Some p /\
    has_setting ESTIMATED_COST_FIELD p /\ has_setting ACTUAL_COST_FIELD p.
Proof.
  unfold eligibleb, has_fields, resolve_fields.
  destruct (lookup_project pid w) as [p|]; [|discriminate].
  intros H. apply andb_true_iff in H. destruct H as [H1 H2].
  exists p. split; [reflexivity|]. split.
  - destruct (resolve_fields_estimated (p_settings p) (None, None))
      as [H|H]; [|now elim H|exact H].
    intros Hn. rewrite Hn in H1. discriminate.
  - destruct (resolve_fields_actual (p_settings p) (None, None))
      as [H|H]; [|now elim H|exact H].
    intros Hn. rewrite Hn in H2. discriminate.
Qed.

(** C7. Every project [determine_projects_to_update] returns is eligible:
    it is in the store and both configured custom fields resolve on it, so a
    project without a setting named [Budget] or without one named
    [Actual Cost] is never returned, whatever the event and whichever calls
    fail. When there is no event, or the event names no eligible project,
    the result is the list of the projects enumerated from the workspace of
    the template project whose fields resolve; when no call fails these are
    the eligible projects of that workspace. For an event on a task of
    projects [P1; P2] of which only [P1] is eligible, the result is
    [[P1]]. *)
Theorem determine_targets_eligible :
  (forall (data : option event_data) (w : world),
     exists l n,
       determine_projects_to_update data w = (Ok l, set_calls n w) /\
       (forall pid, In pid l ->
          eligibleb w pid = true /\
          exists p, lookup_project pid w = Some p /\
            has_setting ESTIMATED_COST_FIELD p /\
            has_setting ACTUAL_COST_FIELD p) /\
       (forall pid p, lookup_project pid w = Some p ->
          ~ has_setting ESTIMATED_COST_FIELD p \/
          ~ has_setting ACTUAL_COST_FIELD p ->
          ~ In pid l)) /\
  (forall w : world,
     exists n,
       determine_projects_to_update None w =
         (Ok (expected_fallback w), set_calls n w)) /\
  (forall (data : option event_data) (w w1 : world),
     event_projects data w = (Ok [], w1) ->
     exists n,
       determine_projects_to_update data w =
         (Ok (expected_fallback w1), set_calls n w)) /\
  (forall w : world,
     fault_free w ->
     exists n,
       determine_projects_to_update None w =
         (Ok (expected_workspace_projects w), set_calls n w)) /\
  (forall (data : option event_data) (w w1 : world),
     fault_free w ->
     event_projects data w = (Ok [], w1) ->
     exists n,
       determine_projects_to_update data w =
         (Ok (expected_workspace_projects w), set_calls n w)) /\
  (forall (g P1 P2 : string) (t : task) (w : world),
     fault_free w ->
     g <> ""%string ->
     lookup_task g w = Some t ->
     t_projects t = [P1; P2] ->
     eligibleb w P1 = true ->
     eligibleb w P2 = false ->
     exists n,
       determine_projects_to_update (Some (task_event g)) w =
         (Ok [P1], set_calls n w)).
Proof.
  split; [|split; [|split; [|split; [|split]]]].
  - intros data w.
    destruct (determine_projects_to_update_sound data w)
      as (l & n & Hrun & Hl).
    exists l, n. split; [exact Hrun|]. split.
    + intros pid Hin. split; [now apply Hl|].
      apply eligibleb_settings. now apply Hl.
    + intros pid p Hp Hlack Hin.
      destruct (eligibleb_settings w pid (Hl pid Hin))
        as (p' & Hp' & H1 & H2).
      rewrite Hp in Hp'. inversion Hp'; subst. tauto.
  - intros w. apply (determine_fallback_any None w w). reflexivity.
  - intros data w w1. apply determine_fallback_any.
  - intros w Hff. apply (determine_fallback None w w Hff). reflexivity.
  - intros data w w1. apply determine_fallback.
  - apply determine_one_task.
Qed.

Lemma determine_targets_eligible_witness :
  exists n,
    determine_projects_to_update (Some (task_event "t1")) two_project_world
    = (Ok ["P1"%string], set_calls n two_project_world).
Proof.
  apply (proj2 (proj2 (proj2 (proj2 (proj2 determine_targets_eligible))))
           "t1"%string "P1"%string "P2"%string
           {| t_gid := "t1"; t_name := "Walls";
              t_projects := ["P1"; "P2"]%string;
              t_custom_fields := Some []; t_notes := "" |}
           two_project_world).
  - intros n. reflexivity.
  - apply String.eqb_neq. reflexivity.
  - reflexivity.
  - reflexivity.
  - reflexivity.
  - reflexivity.
Defined.

(** ** A pass over several projects *)

Lemma update_projects_total (targets : list string) :
  forall results w,
    exists r w', update_projects targets results w = (Ok r, w').
Proof.
  induction targets as [|pid rest IH]; intros results w; simpl.
  - unfold ret. eauto.
  - unfold bind.
    destruct (update_project_metrics_total pid w) as (b & w1 & ->).
    apply IH.
Qed.


Lemma update_projects_dom (targets : list string) :
  forall (results : gmap string bool) w r w',
    update_projects targets results w = (Ok r, w') ->
    dom r = dom results ∪ list_to_set targets.
Proof.
  induction targets as [|pid rest IH]; intros results w r w' H; simpl in H.
  - inversion H; subst. simpl. now rewrite (right_id_L ∅ (∪)).
  - unfold bind in H.
    destruct (update_project_metrics pid w) as [[b|] w1]; [|discriminate].
    apply IH in H. rewrite H, dom_insert_L. simpl.
    now rewrite (assoc_L (∪)), (comm_L (∪) (dom results)).
Qed.





(** ** The handshake *)

(** C8. A POST on [/webhook] that carries the header [X-Hook-Secret] with
    value [s] stores [s] under ['secret'] in [WEBHOOK_SECRET], answers 200
    and sends [s] back in the same header; nothing else happens: no client
    call is made and the store is untouched. *)
Theorem handshake_echo :
  forall (req : http_request) (s : string) (w : world),
    header_get "X-Hook-Secret" (req_headers req) = Some s ->
    exists resp w',
      handle_webhook req w = (Ok resp, w') /\
      resp_status resp = 200%nat /\
      header_get "X-Hook-Secret" (resp_headers resp) = Some s /\
      WEBHOOK_SECRET w' !! "secret"%string = Some s /\
      w' = set_secret (<["secret"%string := s]> (WEBHOOK_SECRET w)) w /\
      w_calls w' = w_calls w /\ w_tasks w' = w_tasks w /\
      w_ticks w' = w_ticks w.
Proof.
  intros req s w H. unfold handle_webhook. rewrite H.
  eexists. eexists. split; [reflexivity|].
  split; [reflexivity|]. split; [reflexivity|].
  split; [apply lookup_insert_eq|]. repeat split.
Qed.

Lemma handshake_echo_witness :
  exists resp w',
    handle_webhook
      {| req_headers := [("X-Hook-Secret"%string, "abc123"%string)];
         req_json := None |} two_project_world = (Ok resp, w') /\
    resp_status resp = 200%nat /\
    header_get "X-Hook-Secret" (resp_headers resp) = Some "abc123"%string /\
    WEBHOOK_SECRET w' !! "secret"%string = Some "abc123"%string.
Proof.
  destruct (handshake_echo
              {| req_headers := [("X-Hook-Secret"%string, "abc123"%string)];
                 req_json := None |} "abc123"%string two_project_world)
    as (resp & w' & H1 & H2 & H3 & H4 & _).
  - reflexivity.
  - exists resp, w'. auto.
Defined.

(** ** The status task of a project *)











(** ** Two passes in a row *)

(** Two passes in a row that both return [True] and add no task: the second
    writes the summary of the first with the later time, whichever calls
    failed. *)
Lemma unchanged_store_same_summary (pid : string) (w w1 w2 : world) :
  update_project_metrics pid w = (Ok true, w1) ->
  update_project_metrics pid w1 = (Ok true, w2) ->
  length (w_tasks w1) = length (w_tasks w) ->
  length (w_tasks w2) = length (w_tasks w1) ->
  exists st proj acc t1 t2,
    first_status_task (map compact (project_tasks pid w1)) = Some st /\
    lookup_task st w1 = Some t1 /\
    lookup_task st w2 = Some t2 /\
    t_notes t1 =
      render_summary (display_name proj) acc (w_clock w (w_ticks w)) /\
    t_notes t2 =
      render_summary (display_name proj) acc (w_clock w (S (w_ticks w))).
Proof.
  intros R1 R2 L1 L2.
  destruct (update_project_metrics_true_found pid w w1 R1 L1)
    as (proj & e & a & st & Hp & Hr & Hf & Hl & Hts & Hfr).
  destruct (update_project_metrics_true_found pid w1 w2 R2 L2)
    as (proj' & e' & a' & st' & Hp' & Hr' & Hf' & Hl' & Hts' & Hfr').
  destruct Hfr as (Hpr & _ & _ & _ & Hcl & Hti).
  assert (Hpe : proj' = proj).
  { unfold lookup_project in Hp'. rewrite Hpr in Hp'.
    unfold lookup_project in Hp. congruence. }
  subst proj'. rewrite Hr in Hr'. inversion Hr'; subst e' a'. clear Hr'.
  rewrite (listing_written pid _ _ w w1 Hts) in Hf', Hts'.
  rewrite Hf in Hf'. inversion Hf'; subst st'. clear Hf'.
  set (listing := map compact (project_tasks pid w)) in *.
  set (s1 := render_summary (display_name proj)
               (aggregate st e a w listing no_totals)
               (w_clock w (w_ticks w))) in *.
  assert (Hagg : aggregate st e a w1 listing no_totals =
                 aggregate st e a w listing no_totals).
  { symmetry. apply aggregate_ext. intros item Hin _.
    destruct (lookup_task (tc_gid item) w) as [d|] eqn:Ed;
      [|exfalso; exact (listing_fetchable pid w item Hin Ed)].
    exists d, (write_notes st s1 d). split; [reflexivity|]. split.
    - now rewrite (lookup_task_written _ st s1 w w1 Hts), Ed.
    - now rewrite write_notes_costs. }
  rewrite Hagg, Hcl, Hti in Hts'.
  destruct (lookup_task st w) as [d|] eqn:Ed; [|congruence].
  assert (Hd : t_gid d = st) by (apply (find_gid st (w_tasks w)); exact Ed).
  exists st, proj, (aggregate st e a w listing no_totals).
  exists (write_notes st s1 d). eexists.
  split.
  { now rewrite (listing_written pid _ _ w w1 Hts). }
  split.
  { now rewrite (lookup_task_written _ st s1 w w1 Hts), Ed. }
  split.
  { rewrite (lookup_task_written _ st _ w1 w2 Hts').
    now rewrite (lookup_task_written _ st s1 w w1 Hts), Ed. }
  split.
  - now rewrite write_notes_notes.
  - rewrite write_notes_notes; [reflexivity|].
    now rewrite write_notes_gid.
Qed.

(** The second of two passes in a row renders the summary of the first
    with the later time. *)
Lemma second_pass_same_summary (pid : string) (w w1 : world) :
  fault_free w ->
  gids_not_empty w ->
  update_project_metrics pid w = (Ok true, w1) ->
  exists w2 st proj acc t1 t2,
    update_project_metrics pid w1 = (Ok true, w2) /\
    find_status_task pid w1 = (Ok (Some st), tick w1) /\
    lookup_task st w1 = Some t1 /\
    lookup_task st w2 = Some t2 /\
    t_notes t1 =
      render_summary (display_name proj) acc (w_clock w (w_ticks w)) /\
    t_notes t2 =
      render_summary (display_name proj) acc (w_clock w (S (w_ticks w))).
Proof.
  intros Hff Hg Hrun.
  destruct (update_project_metrics_fault_free pid w Hff) as (w' & Hfr & H).
  destruct (pass_plan pid w) as [[[[[proj e] a] st] extra]|] eqn:Hplan;
    [|rewrite Hrun in H; discriminate].
  destruct H as [Hrun' Hts]. rewrite Hrun in Hrun'.
  inversion Hrun'; subst w'. clear Hrun'.
  destruct (pass_plan_Some _ _ _ _ _ _ _ Hplan)
    as (Hp & Hr & Hel & Hst & Hcase).
  destruct Hfr as (Hpr & Hsec & Hfa & Hng & Hcl & Hti).
  assert (Hff1 : fault_free w1) by exact (fault_free_frame _ _ Hfa Hff).
  set (wi := set_tasks (w_tasks w ++ extra) w).
  set (listing := map compact (project_tasks pid w)) in *.
  set (s1 := render_summary (display_name proj)
               (aggregate st e a w listing no_totals)
               (w_clock w (w_ticks w))) in *.
  assert (Hl1 : map compact (project_tasks pid w1) =
                map compact (project_tasks pid wi))
    by (apply (listing_written pid st s1 wi w1); exact Hts).
  assert (Hfetch : forall item, In item listing ->
            exists d, lookup_task (tc_gid item) w = Some d /\
              lookup_task (tc_gid item) w1 = Some (write_notes st s1 d)).
  { intros item Hin.
    destruct (lookup_task (tc_gid item) w) as [d|] eqn:Ed;
      [|exfalso; exact (listing_fetchable pid w item Hin Ed)].
    exists d. split; [reflexivity|].
    rewrite (lookup_task_written _ st s1 wi w1 Hts).
    now rewrite (lookup_task_app _ d w wi extra eq_refl Ed). }
  assert (Htail : exists tail,
            map compact (project_tasks pid wi) = listing ++ tail /\
            (forall c, In c tail -> tc_gid c = st) /\
            first_status_task (listing ++ tail) = Some st /\
            lookup_task st wi <> None).
  { destruct Hcase as [[Hf ->]|(Hf & Hnew & ->)].
    - exists []. unfold wi. rewrite !app_nil_r.
      split; [reflexivity|]. split; [intros c []|]. split; [exact Hf|].
      destruct (first_status_task_In _ _ Hf) as (item & Hin & <- & _).
      exact (listing_fetchable pid w item Hin).
    - exists [compact (new_status_task pid w)].
      split; [|split; [|split]].
      + unfold listing, wi, project_tasks. cbn [w_tasks set_tasks].
        rewrite List.filter_app, map_app. simpl. unfold member. simpl.
        now rewrite String.eqb_refl.
      + intros c [<-|[]]. simpl. now rewrite Hnew.
      + rewrite Hnew.
        apply (first_status_task_app listing
                 (compact (new_status_task pid w)));
          [|reflexivity].
        now apply first_status_task_not_empty.
      + rewrite Hnew.
        apply (lookup_task_listed (new_status_task pid w) wi).
        unfold wi. cbn [w_tasks set_tasks]. apply in_or_app. right.
        now left. }
  destruct Htail as (tail & Hl2 & Hskip & Hfirst & Hex).
  rewrite Hl2 in Hl1.
  assert (Hp1 : lookup_project pid w1 = Some proj)
    by (unfold lookup_project; rewrite Hpr; exact Hp).
  assert (Hplan1 : pass_plan pid w1 = Some (proj, e, a, st, [])).
  { unfold pass_plan. rewrite Hp1, Hr, Hel. cbv zeta.
    rewrite Hl1, Hfirst. cbn [truthy option_map].
    apply String.eqb_neq in Hst. now rewrite Hst. }
  destruct (update_project_metrics_fault_free pid w1 Hff1)
    as (w2 & Hfr2 & H2).
  rewrite Hplan1 in H2. destruct H2 as [Hrun2 Hts2].
  rewrite app_nil_r, Hl1, Hcl, Hti in Hts2.
  assert (Hagg : aggregate st e a w1 (listing ++ tail) no_totals =
                 aggregate st e a w listing no_totals).
  { rewrite aggregate_app, (aggregate_skip _ _ _ _ tail _ Hskip).
    symmetry. apply aggregate_ext. intros item Hin _.
    destruct (Hfetch item Hin) as (d & Hd & Hd1).
    exists d, (write_notes st s1 d). split; [exact Hd|].
    split; [exact Hd1|]. now rewrite write_notes_costs. }
  rewrite Hagg in Hts2.
  destruct (lookup_task st wi) as [d|] eqn:Ed; [|congruence].
  assert (Hd : t_gid d = st) by (apply (find_gid st (w_tasks wi)); exact Ed).
  exists w2, st, proj, (aggregate st e a w listing no_totals).
  exists (write_notes st s1 d).
  eexists.
  split; [exact Hrun2|]. split.
  { rewrite find_status_task_eq, (Hff1 _), Hl1, Hfirst. reflexivity. }
  split.
  { rewrite (lookup_task_written _ st s1 wi w1 Hts), Ed. reflexivity. }
  split.
  { rewrite (lookup_task_written _ st _ w1 w2 Hts2).
    rewrite (lookup_task_written _ st s1 wi w1 Hts), Ed. reflexivity. }
  split.
  - now rewrite write_notes_notes.
  - rewrite write_notes_notes; [reflexivity|].
    now rewrite write_notes_gid.
Qed.

(** C9. Two passes over a project, one after the other, on a store that
    nothing else changes: the second pass writes on the status task the
    text the first one wrote, except for the last-updated line, which
    carries the time of each pass; the text before that line is
    [render_body] of the project name and the totals. This holds whenever
    both passes return [True] and add no task, whichever calls fail; and
    when no call fails it holds also when the first pass creates the status
    task. *)
Theorem summary_reproducible :
  (forall (pid : string) (w w1 w2 : world),
     update_project_metrics pid w = (Ok true, w1) ->
     update_project_metrics pid w1 = (Ok true, w2) ->
     length (w_tasks w1) = length (w_tasks w) ->
     length (w_tasks w2) = length (w_tasks w1) ->
     exists st t1 t2 name acc,
       first_status_task (map compact (project_tasks pid w1)) = Some st /\
       lookup_task st w1 = Some t1 /\
       lookup_task st w2 = Some t2 /\
       t_notes t1 =
         render_body name acc
           +:+ render_timestamp (w_clock w (w_ticks w)) /\
       t_notes t2 =
         render_body name acc
           +:+ render_timestamp (w_clock w (S (w_ticks w)))) /\
  (forall (pid : string) (w w1 : world),
     fault_free w ->
     gids_not_empty w ->
     update_project_metrics pid w = (Ok true, w1) ->
     exists w2 st t1 t2 name acc,
       update_project_metrics pid w1 = (Ok true, w2) /\
       find_status_task pid w1 = (Ok (Some st), tick w1) /\
       lookup_task st w1 = Some t1 /\
       lookup_task st w2 = Some t2 /\
       t_notes t1 =
         render_body name acc
           +:+ render_timestamp (w_clock w (w_ticks w)) /\
       t_notes t2 =
         render_body name acc
           +:+ render_timestamp (w_clock w (S (w_ticks w)))).
Proof.
  split.
  - intros pid w w1 w2 R1 R2 L1 L2.
    destruct (unchanged_store_same_summary pid w w1 w2 R1 R2 L1 L2)
      as (st & proj & acc & t1 & t2 & H1 & H2 & H3 & H4 & H5).
    exists st, t1, t2, (display_name proj), acc.
    repeat split; assumption.
  - intros pid w w1 Hff Hg Hrun.
    destruct (second_pass_same_summary pid w w1 Hff Hg Hrun)
      as (w2 & st & proj & acc & t1 & t2 & H1 & H2 & H3 & H4 & H5 & H6).
    exists w2, st, t1, t2, (display_name proj), acc.
    repeat split; assumption.
Qed.

Lemma summary_reproducible_witness :
  exists w2 st t1 t2 name acc,
    update_project_metrics "P1"
      (snd (update_project_metrics "P1" (lone_project_world no_faults)))
    = (Ok true, w2) /\
    find_status_task "P1"
      (snd (update_project_metrics "P1" (lone_project_world no_faults)))
    = (Ok (Some st),
       tick (snd (update_project_metrics "P1"
                    (lone_project_world no_faults)))) /\
    lookup_task st
      (snd (update_project_metrics "P1" (lone_project_world no_faults)))
    = Some t1 /\
    lookup_task st w2 = Some t2 /\
    t_notes t1 = render_body name acc +:+ render_timestamp (example_clock 0)
    /\
    t_notes t2 = render_body name acc +:+ render_timestamp (example_clock 1).
Proof.
  apply (proj2 summary_reproducible "P1"%string
           (lone_project_world no_faults)
           (snd (update_project_metrics "P1"
                   (lone_project_world no_faults)))).
  - intros n. reflexivity.
  - intros t [<-|[]]. apply String.eqb_neq. reflexivity.
  - vm_compute. reflexivity.
Defined.

(** * Further properties

    Of the aggregation, of a pass, of the targets of a request and of the
    endpoints. *)

(** ** Invariants of the totals *)

Lemma add_to_totals_consistent (acc : totals) (name : string)
    (estimated actual : Q) :
  totals_consistent acc ->
  totals_consistent (add_to_totals acc name estimated actual).
Proof.
  intros (Hc & Ho & Ha). unfold totals_consistent, add_to_totals.
  destruct (Qgtb actual 0) eqn:Hpos; cbn.
  - apply Qgtb_true in Hpos. repeat split.
    + lia.
    + destruct (Qgtb actual estimated); [rewrite length_app; cbn|]; lia.
    + apply Qlt_le_weak in Hpos.
      rewrite <- (Qplus_0_r 0). now apply Qplus_le_compat.
  - repeat split; [lia | lia | exact Ha].
Qed.

Lemma aggregate_consistent (st e a : string) (w : world)
    (tasks : list task_compact) :
  forall acc,
    totals_consistent acc ->
    totals_consistent (aggregate st e a w tasks acc).
Proof.
  unfold aggregate. induction tasks as [|item rest IH]; intros acc H.
  - exact H.
  - cbn [fold_left]. apply IH. unfold aggregate_step.
    destruct (String.eqb (tc_gid item) st); [exact H|].
    destruct (lookup_task (tc_gid item) w); [|exact H].
    now apply add_to_totals_consistent.
Qed.

Lemma no_totals_consistent : totals_consistent no_totals.
Proof.
  unfold totals_consistent. cbn. repeat split; try lia. apply Qle_refl.
Qed.

Lemma Q_of_nat_nonneg (n : nat) : (0 <= Q_of_nat n)%Q.
Proof. unfold Q_of_nat, Qle. cbn. lia. Qed.

Lemma Q_of_nat_le (n m : nat) : (n <= m)%nat -> (Q_of_nat n <= Q_of_nat m)%Q.
Proof. intros H. unfold Q_of_nat, Qle. cbn. lia. Qed.

Lemma Q_of_nat_pos (n : nat) : (0 < n)%nat -> (0 < Q_of_nat n)%Q.
Proof. intros H. unfold Q_of_nat, Qlt. cbn. lia. Qed.

Lemma percent_complete_bounds (acc : totals) :
  (completed_tasks acc <= total_tasks acc)%nat ->
  (0 <= percent_complete acc)%Q /\ (percent_complete acc <= 100)%Q.
Proof.
  intros Hc. unfold percent_complete.
  destruct (0 <? total_tasks acc)%nat eqn:Ht.
  - apply Nat.ltb_lt in Ht. pose proof (Q_of_nat_pos _ Ht) as Hpos.
    split.
    + apply Qmult_le_0_compat; [|discriminate].
      apply Qle_shift_div_l; [exact Hpos|].
      rewrite Qmult_0_l. apply Q_of_nat_nonneg.
    + rewrite <- (Qmult_1_l 100) at 2.
      apply Qmult_le_compat_r; [|discriminate].
      apply Qle_shift_div_r; [exact Hpos|].
      rewrite Qmult_1_l. now apply Q_of_nat_le.
  - split; discriminate.
Qed.

Lemma budget_progress_nonneg (acc : totals) :
  (0 <= total_actual acc)%Q -> (0 <= budget_progress acc)%Q.
Proof.
  intros Ha. unfold budget_progress.
  destruct (Qgtb (total_estimated acc) 0) eqn:He; [|apply Qle_refl].
  apply Qgtb_true in He.
  apply Qmult_le_0_compat; [|discriminate].
  apply Qle_shift_div_l; [exact He|]. now rewrite Qmult_0_l.
Qed.

(** X1. Whatever the store holds, the totals of a run that completes are
    consistent: completed tasks are at most the tasks counted, over-budget
    entries at most the completed tasks, the total actual cost is not
    negative, the completion rate lies between 0 and 100 and the budget
    utilisation is not negative. *)
Theorem totals_within_bounds :
  forall (st e a : string) (tasks : list task_compact) (w : world)
         (acc : totals) (w' : world),
    process_tasks st e a tasks no_totals w = (Ok acc, w') ->
    (completed_tasks acc <= total_tasks acc)%nat /\
    (length (overbudget_tasks acc) <= completed_tasks acc)%nat /\
    (0 <= total_actual acc)%Q /\
    (0 <= percent_complete acc)%Q /\
    (percent_complete acc <= 100)%Q /\
    (0 <= budget_progress acc)%Q.
Proof.
  intros st e a tasks w acc w' H.
  apply process_tasks_ok_aggregate in H. subst acc.
  destruct (aggregate_consistent st e a w tasks no_totals
              no_totals_consistent) as (Hc & Ho & Ha).
  destruct (percent_complete_bounds _ Hc) as [Hp0 Hp100].
  repeat split; try assumption. now apply budget_progress_nonneg.
Qed.

Lemma totals_within_bounds_witness :
  (0 <= percent_complete
          (example_totals "s" (one_task_world (Some (-100)%Q) (Some 50%Q))))%Q
  /\
  (0 <= budget_progress
          (example_totals "s" (one_task_world (Some (-100)%Q) (Some 50%Q))))%Q.
Proof.
  pose proof (totals_within_bounds "s" "f_est" "f_act"
    (map compact (project_tasks "P1"
       (one_task_world (Some (-100)%Q) (Some 50%Q))))
    (one_task_world (Some (-100)%Q) (Some 50%Q))
    (example_totals "s" (one_task_world (Some (-100)%Q) (Some 50%Q)))
    (tick (one_task_world (Some (-100)%Q) (Some 50%Q)))
    eq_refl) as H.
  split; apply H.
Defined.

Lemma add_to_totals_total_tasks (acc : totals) (name : string)
    (estimated actual : Q) :
  total_tasks (add_to_totals acc name estimated actual) =
    S (total_tasks acc).
Proof. unfold add_to_totals. now destruct (Qgtb actual 0). Qed.

Lemma process_tasks_counts (st e a : string) (tasks : list task_compact) :
  forall acc w acc' w',
    process_tasks st e a tasks acc w = (Ok acc', w') ->
    total_tasks acc' =
      (total_tasks acc + length (without_status st tasks))%nat /\
    w' = set_calls (w_calls w + length (without_status st tasks)) w.
Proof.
  induction tasks as [|item rest IH]; intros acc w acc' w' H.
  - cbn in H. unfold ret in H. inversion H; subst. cbn.
    rewrite !Nat.add_0_r. split; [reflexivity|]. now destruct w'.
  - cbn [process_tasks] in H. unfold bind in H.
    change (without_status st (item :: rest)) with
      (if negb (String.eqb (tc_gid item) st)
       then item :: without_status st rest else without_status st rest).
    destruct (String.eqb (tc_gid item) st) eqn:Est.
    + apply String.eqb_eq in Est.
      rewrite (process_task_status st e a acc item w Est) in H.
      cbn [negb]. now apply IH.
    + apply String.eqb_neq in Est.
      rewrite (process_task_other st e a acc item w Est) in H.
      destruct (w_faults w (w_calls w)); [discriminate|].
      destruct (lookup_task (tc_gid item) w) as [d|]; [|discriminate].
      apply IH in H. destruct H as [Ht Hw].
      rewrite add_to_totals_total_tasks in Ht. cbn [negb length].
      split; [lia|]. rewrite Hw. unfold tick, set_calls. cbn.
      f_equal. lia.
Qed.

(** X2. The loop fetches the details of every listed task except the
    status task, one client call each, and counts exactly those: after a
    run that completes, [total_tasks] is the number of listed tasks whose
    gid is not the status task's, the loop has made that many calls and has
    changed nothing else. *)
Theorem one_fetch_per_counted_task :
  forall (st e a : string) (tasks : list task_compact) (w : world)
         (acc : totals) (w' : world),
    process_tasks st e a tasks no_totals w = (Ok acc, w') ->
    total_tasks acc = length (without_status st tasks) /\
    w_calls w' = (w_calls w + length (without_status st tasks))%nat /\
    w' = set_calls (w_calls w') w.
Proof.
  intros st e a tasks w acc w' H.
  apply process_tasks_counts in H. destruct H as [Ht Hw].
  split; [exact Ht|]. rewrite Hw. split; reflexivity.
Qed.

Lemma one_fetch_per_counted_task_witness :
  total_tasks (example_totals "s1" (status_project_world no_faults)) = 1%nat.
Proof.
  exact (proj1 (one_fetch_per_counted_task "s1" "f_est" "f_act"
    (map compact (project_tasks "P1" (status_project_world no_faults)))
    (status_project_world no_faults)
    (example_totals "s1" (status_project_world no_faults))
    (tick (status_project_world no_faults)) eq_refl)).
Defined.

Lemma expected_overbudget_sound (st e a : string) (w : world)
    (task : task_compact) :
  Forall overbudget_sound (expected_overbudget st e a w task).
Proof.
  unfold expected_overbudget.
  destruct (String.eqb (tc_gid task) st); [constructor|].
  destruct (lookup_task (tc_gid task) w) as [d|]; [|constructor].
  destruct (Qlt_le_dec 0 (snd (extract_costs e a d))) as [Hpos|];
    [|constructor].
  destruct (Qlt_le_dec (fst (extract_costs e a d))
              (snd (extract_costs e a d))) as [Hover|]; [|constructor].
  constructor; [|constructor].
  unfold overbudget_sound. cbn. repeat split; try assumption.
  unfold Qminus. rewrite <- (Qplus_opp_r (fst (extract_costs e a d))).
  apply Qplus_lt_le_compat; [exact Hover|apply Qle_refl].
Qed.

Lemma total_overbudget_from (items : list overbudget_item) :
  Forall overbudget_sound items ->
  forall s, (0 <= s)%Q ->
    (s <= fold_left (fun s item => (s + ob_difference item)%Q) items s)%Q.
Proof.
  induction 1 as [|item rest Hi _ IH]; intros s Hs.
  - apply Qle_refl.
  - cbn [fold_left]. destruct Hi as (_ & _ & _ & Hd).
    apply Qlt_le_weak in Hd.
    assert (s <= s + ob_difference item)%Q as Hle.
    { rewrite <- (Qplus_0_r s) at 1.
      apply Qplus_le_compat; [apply Qle_refl|exact Hd]. }
    eapply Qle_trans; [exact Hle|]. apply IH.
    eapply Qle_trans; [exact Hs|exact Hle].
Qed.

Lemma total_overbudget_positive (items : list overbudget_item) :
  Forall overbudget_sound items -> items <> [] ->
  (0 < total_overbudget items)%Q.
Proof.
  intros H Hne. destruct H as [|item rest Hi Hrest]; [congruence|].
  unfold total_overbudget. cbn [fold_left].
  pose proof Hi as (_ & _ & _ & Hd).
  assert (0 < 0 + ob_difference item)%Q as Hpos by now rewrite Qplus_0_l.
  eapply Qlt_le_trans; [exact Hpos|].
  apply total_overbudget_from; [exact Hrest|now apply Qlt_le_weak].
Qed.

(** X3. Every entry of the over-budget list of a run that completes has an
    actual cost above 0 and above its estimate and a difference, actual
    minus estimate, above 0; so the total amount over budget, shown when
    the list is not empty, is above 0. *)
Theorem overbudget_entries_positive :
  forall (st e a : string) (tasks : list task_compact) (w : world)
         (acc : totals) (w' : world),
    process_tasks st e a tasks no_totals w = (Ok acc, w') ->
    Forall overbudget_sound (overbudget_tasks acc) /\
    (overbudget_tasks acc <> [] ->
     (0 < total_overbudget (overbudget_tasks acc))%Q).
Proof.
  intros st e a tasks w acc w' H.
  assert (Forall overbudget_sound (overbudget_tasks acc)) as Hs.
  { rewrite (process_tasks_overbudget st e a tasks _ _ _ _ H). cbn.
    apply List.Forall_forall. intros item Hin.
    apply in_flat_map in Hin. destruct Hin as (task & _ & Hin).
    pose proof (expected_overbudget_sound st e a w task) as Hf.
    rewrite List.Forall_forall in Hf. now apply Hf. }
  split; [exact Hs|]. now apply total_overbudget_positive.
Qed.

Lemma overbudget_entries_positive_witness :
  (0 < total_overbudget
         (overbudget_tasks
            (example_totals "s"
               (one_task_world (Some 100%Q) (Some 150%Q)))))%Q.
Proof.
  apply (overbudget_entries_positive "s" "f_est" "f_act"
    (map compact (project_tasks "P1"
       (one_task_world (Some 100%Q) (Some 150%Q))))
    (one_task_world (Some 100%Q) (Some 150%Q))
    (example_totals "s" (one_task_world (Some 100%Q) (Some 150%Q)))
    (tick (one_task_world (Some 100%Q) (Some 150%Q))) eq_refl).
  vm_compute. discriminate.
Defined.

(** ** Which value and which setting is read *)

(** X4. Of the entries of a task's custom fields that carry a number, the
    last one with the gid of the estimate gives the estimated cost, and the
    last one with the gid of the actual cost gives the actual cost; entries
    without a number after it do not reset it. *)
Theorem extract_costs_last_value :
  forall (e a : string) (details : task) (pre post : list field_value)
         (f : field_value) (v : Q),
    t_custom_fields details = Some (pre ++ f :: post) ->
    fv_number_value f = Some v ->
    (fv_gid f = e ->
     (forall g, In g post -> fv_gid g = e -> fv_number_value g = None) ->
     fst (extract_costs e a details) = v) /\
    (fv_gid f = a -> a <> e ->
     (forall g, In g post -> fv_gid g = a -> fv_number_value g = None) ->
     snd (extract_costs e a details) = v).
Proof.
  intros e a details pre post f v Hfields Hv.
  unfold extract_costs. rewrite Hfields, fold_left_app. cbn [fold_left].
  split.
  - intros He Hpost. rewrite read_fields_fst by exact Hpost.
    unfold read_field. rewrite Hv, He, String.eqb_refl. reflexivity.
  - intros Ha Hne Hpost. rewrite read_fields_snd by exact Hpost.
    unfold read_field. rewrite Hv, Ha, String.eqb_refl.
    apply String.eqb_neq in Hne. now rewrite Hne.
Qed.

Lemma extract_costs_last_value_witness :
  fst (extract_costs "f_est" "f_act"
         {| t_gid := "t1"; t_name := "Walls"; t_projects := ["P1"%string];
            t_custom_fields :=
              Some [{| fv_gid := "f_est"; fv_number_value := Some 100%Q |};
                    {| fv_gid := "f_est"; fv_number_value := Some 120%Q |};
                    {| fv_gid := "f_est"; fv_number_value := None |}];
            t_notes := "" |}) = 120%Q.
Proof.
  apply (extract_costs_last_value "f_est" "f_act" _
           [{| fv_gid := "f_est"; fv_number_value := Some 100%Q |}]
           [{| fv_gid := "f_est"; fv_number_value := None |}]
           {| fv_gid := "f_est"; fv_number_value := Some 120%Q |} 120%Q).
  - reflexivity.
  - reflexivity.
  - reflexivity.
  - intros g [<-|[]] _. reflexivity.
Defined.

Lemma scan_settings_last (settings : list custom_field) :
  forall init,
    fold_left scan_setting settings init =
      (match last_setting ESTIMATED_COST_FIELD settings with
       | Some s => Some (cf_gid s)
       | None => fst init
       end,
       match last_setting ACTUAL_COST_FIELD settings with
       | Some s => Some (cf_gid s)
       | None => snd init
       end).
Proof.
  induction settings as [|s rest IH] using rev_ind; intros init.
  - now destruct init.
  - rewrite fold_left_app. cbn [fold_left]. rewrite IH.
    unfold last_setting. rewrite rev_app_distr. cbn [rev app List.find].
    unfold scan_setting. cbn [fst snd].
    destruct (String.eqb (cf_name s) ESTIMATED_COST_FIELD) eqn:He.
    + apply String.eqb_eq in He. rewrite He. reflexivity.
    + destruct (String.eqb (cf_name s) ACTUAL_COST_FIELD); reflexivity.
Qed.

(** X5. [get_custom_fields] never raises and makes one client call. When
    several settings of the project carry the name of a cost field, the gid
    of the last one is returned; a field without a setting, an unknown
    project and a failed call give [None]. *)
Theorem last_setting_wins :
  forall (pid : string) (w : world),
    get_custom_fields pid w =
      (Ok (if w_faults w (w_calls w) then (None, None)
           else
             match lookup_project pid w with
             | Some p =>
                 (option_map cf_gid
                    (last_setting ESTIMATED_COST_FIELD (p_settings p)),
                  option_map cf_gid
                    (last_setting ACTUAL_COST_FIELD (p_settings p)))
             | None => (None, None)
             end), tick w).
Proof.
  intros pid w. rewrite get_custom_fields_eq.
  destruct (w_faults w (w_calls w)); [reflexivity|].
  destruct (lookup_project pid w) as [p|]; [|reflexivity].
  unfold resolve_fields. rewrite scan_settings_last. cbn [fst snd].
  destruct (last_setting ESTIMATED_COST_FIELD (p_settings p));
    destruct (last_setting ACTUAL_COST_FIELD (p_settings p)); reflexivity.
Qed.

(** ** Relations that the computations preserve

    A relation on worlds that is transitive and holds between two worlds
    with the same store is preserved by every computation that only reads
    the store; when the two calls that write preserve it, so does a pass;
    and when a pass preserves it, so do the handlers. *)

Section Preserves.

Variable R : relation world.
Hypothesis R_trans : forall w1 w2 w3, R w1 w2 -> R w2 w3 -> R w1 w3.
Hypothesis R_same : forall w w', same_store w w' -> R w w'.

Lemma preserves_ret {A} (a : A) : preserves R (ret a).
Proof.
  intros w r w' H. inversion H; subst. apply R_same. repeat split.
Qed.

Lemma preserves_bind {A B} (m : M A) (k : A -> M B) :
  preserves R m -> (forall a, preserves R (k a)) -> preserves R (bind m k).
Proof.
  intros Hm Hk w r w' H. unfold bind in H.
  destruct (m w) as [[a|] w1] eqn:E; apply Hm in E.
  - apply Hk in H. eapply R_trans; eassumption.
  - inversion H; subst. exact E.
Qed.

Lemma preserves_try_except {A} (m handler : M A) :
  preserves R m -> preserves R handler -> preserves R (try_except m handler).
Proof.
  intros Hm Hh w r w' H. unfold try_except in H.
  destruct (m w) as [[a|] w1] eqn:E; apply Hm in E.
  - inversion H; subst. exact E.
  - apply Hh in H. eapply R_trans; eassumption.
Qed.

Lemma preserves_api_call {A} (serve : M A) :
  preserves R serve -> preserves R (api_call serve).
Proof.
  intros Hs w r w' H. unfold api_call in H.
  assert (R w (tick w)) as Ht by (apply R_same; repeat split).
  destruct (w_faults w (w_calls w)).
  - inversion H; subst. exact Ht.
  - apply Hs in H. eapply R_trans; eassumption.
Qed.

(** A call that reads the store. *)
Ltac preserves_read :=
  apply preserves_api_call; intros w r w' H;
  repeat match type of H with
         | context [match ?x with _ => _ end] => destruct x
         end;
  inversion H; subst; apply R_same; repeat split.

Lemma preserves_projects_find_by_id (pid : string) :
  preserves R (projects_find_by_id pid).
Proof. preserves_read. Qed.

Lemma preserves_projects_find_all (ws : string) :
  preserves R (projects_find_all ws).
Proof. preserves_read. Qed.

Lemma preserves_settings (pid : string) :
  preserves R (custom_field_settings_find_by_project pid).
Proof. preserves_read. Qed.

Lemma preserves_tasks_find_by_project (pid : string) :
  preserves R (tasks_find_by_project pid).
Proof. preserves_read. Qed.

Lemma preserves_tasks_find_by_id (tid : string) :
  preserves R (tasks_find_by_id tid).
Proof. preserves_read. Qed.

Lemma preserves_now : preserves R now.
Proof.
  intros w r w' H. inversion H; subst. apply R_same. repeat split.
Qed.

End Preserves.

Create HintDb preserve.
#[local] Hint Resolve preserves_ret preserves_projects_find_by_id
  preserves_projects_find_all preserves_settings
  preserves_tasks_find_by_project preserves_tasks_find_by_id preserves_now
  : preserve.

(** Break a computation into its parts. *)
Ltac preserve :=
  repeat first
    [ progress eauto with preserve
    | apply preserves_try_except; [eassumption| |]
    | apply preserves_bind; [eassumption| |intros ?]
    | match goal with
      | |- preserves _ (match ?x with _ => _ end) => destruct x
      | |- preserves _ (if ?x then _ else _) => destruct x
      end ].

Section Reads.

Variable R : relation world.
Hypothesis R_trans : forall w1 w2 w3, R w1 w2 -> R w2 w3 -> R w1 w3.
Hypothesis R_same : forall w w', same_store w w' -> R w w'.

Lemma preserves_get_project_workspace (pid : string) :
  preserves R (get_project_workspace pid).
Proof. unfold get_project_workspace. preserve. Qed.

Lemma preserves_get_all_projects (ws : string) :
  preserves R (get_all_projects_in_workspace ws).
Proof. unfold get_all_projects_in_workspace. preserve. Qed.

Lemma preserves_get_custom_fields (pid : string) :
  preserves R (get_custom_fields pid).
Proof. unfold get_custom_fields. preserve. Qed.

Lemma preserves_find_status_task (pid : string) :
  preserves R (find_status_task pid).
Proof. unfold find_status_task. preserve. Qed.

Lemma preserves_project_display_name (pid : string) :
  preserves R (project_display_name pid).
Proof. unfold project_display_name. preserve. Qed.

Lemma preserves_process_tasks (st e a : string)
    (tasks : list task_compact) :
  forall acc, preserves R (process_tasks st e a tasks acc).
Proof.
  induction tasks as [|item rest IH]; intros acc; cbn [process_tasks].
  - preserve.
  - apply preserves_bind; [exact R_trans| |intros acc'; apply IH].
    unfold process_task. preserve.
Qed.

Lemma preserves_add_task_projects (projects : list string) :
  forall ptu, preserves R (add_task_projects projects ptu).
Proof.
  induction projects as [|p rest IH]; intros ptu; cbn [add_task_projects].
  - preserve.
  - destruct (member p ptu); [apply IH|].
    apply preserves_bind;
      [exact R_trans|now apply preserves_get_custom_fields|].
    intros gids. destruct (truthy (fst gids) && truthy (snd gids)); apply IH.
Qed.

Lemma preserves_scan_events (evs : list event) :
  forall ptu, preserves R (scan_events evs ptu).
Proof.
  induction evs as [|ev rest IH]; intros ptu; cbn [scan_events].
  - preserve.
  - destruct (is_task_event ev); [|apply IH].
    destruct (event_task_gid ev) as [g|]; [|apply IH].
    destruct (truthy (Some g)); [|apply IH].
    apply preserves_bind; [exact R_trans| |intros l; apply IH].
    apply preserves_try_except; [exact R_trans| |preserve].
    apply preserves_bind; [exact R_trans|preserve|].
    intros t. apply preserves_add_task_projects.
Qed.

Lemma preserves_keep_eligible (all_projects : list project) :
  forall ptu, preserves R (keep_eligible all_projects ptu).
Proof.
  induction all_projects as [|p rest IH]; intros ptu; cbn [keep_eligible].
  - preserve.
  - apply preserves_bind;
      [exact R_trans|now apply preserves_get_custom_fields|].
    intros gids. destruct (truthy (fst gids) && truthy (snd gids)); apply IH.
Qed.

Lemma preserves_determine_projects_to_update (data : option event_data) :
  preserves R (determine_projects_to_update data).
Proof.
  unfold determine_projects_to_update.
  apply preserves_bind; [exact R_trans| |].
  - unfold event_projects. destruct data as [d|]; [|preserve].
    destruct (events d); [apply preserves_scan_events|preserve].
  - intros [|p l]; [|preserve]. unfold workspace_projects.
    apply preserves_bind;
      [exact R_trans|apply preserves_get_project_workspace|].
    intros [ws|]; [|preserve]. destruct (truthy (Some ws)); [|preserve].
    apply preserves_bind;
      [exact R_trans|apply preserves_get_all_projects|].
    intros ps. apply preserves_keep_eligible.
Qed.

(** *** A pass, from the two calls that write *)

Hypothesis R_update :
  forall tid notes, preserves R (tasks_update tid notes).
Hypothesis R_create :
  forall projects ws notes,
    preserves R
      (tasks_create_in_workspace STATUS_TASK_NAME projects ws notes).

Lemma preserves_create_status_task (pid : string) :
  preserves R (create_status_task pid).
Proof.
  unfold create_status_task.
  apply preserves_try_except; [exact R_trans| |preserve].
  apply preserves_bind;
    [exact R_trans|apply preserves_get_project_workspace|].
  intros [ws|]; [|preserve]. destruct (truthy (Some ws)); [|preserve].
  apply preserves_bind; [exact R_trans|apply R_create|]. intros t. preserve.
Qed.

Lemma preserves_update_project_metrics (pid : string) :
  preserves R (update_project_metrics pid).
Proof.
  unfold update_project_metrics.
  apply preserves_try_except; [exact R_trans| |preserve].
  apply preserves_bind; [exact R_trans|preserve|]. intros time.
  apply preserves_bind;
    [exact R_trans|apply preserves_get_custom_fields|].
  intros [[e|] [a|]]; try solve [preserve].
  match goal with |- preserves _ (if ?c then _ else _) => destruct c end;
    [preserve|].
  apply preserves_bind; [exact R_trans|preserve|]. intros tasks.
  apply preserves_bind;
    [exact R_trans|apply preserves_find_status_task|].
  intros found.
  apply preserves_bind; [exact R_trans| |].
  { destruct (negb (truthy found));
      [apply preserves_create_status_task|preserve]. }
  intros [st|]; [|preserve].
  match goal with |- preserves _ (if ?c then _ else _) => destruct c end;
    [preserve|].
  apply preserves_bind; [exact R_trans|apply preserves_process_tasks|].
  intros acc. apply preserves_bind; [exact R_trans|preserve|].
  intros proj. apply preserves_bind; [exact R_trans|apply R_update|].
  intros _. preserve.
Qed.

End Reads.

(** *** The handlers, from a pass *)

Section Handlers.

Variable R : relation world.
Hypothesis R_trans : forall w1 w2 w3, R w1 w2 -> R w2 w3 -> R w1 w3.
Hypothesis R_same : forall w w', same_store w w' -> R w w'.
Hypothesis R_pass : forall pid, preserves R (update_project_metrics pid).

Lemma preserves_update_projects (targets : list string) :
  forall results, preserves R (update_projects targets results).
Proof.
  induction targets as [|p rest IH]; intros results; cbn [update_projects].
  - preserve.
  - apply preserves_bind; [exact R_trans|apply R_pass|].
    intros b. apply IH.
Qed.

Lemma preserves_update_status_projects (targets : list string) :
  forall results, preserves R (update_status_projects targets results).
Proof.
  induction targets as [|p rest IH]; intros results;
    cbn [update_status_projects].
  - preserve.
  - apply preserves_bind; [exact R_trans|apply R_pass|]. intros b.
    apply preserves_bind;
      [exact R_trans|now apply preserves_project_display_name|].
    intros name. apply IH.
Qed.

Lemma preserves_handle_events (req : http_request) :
  header_get "X-Hook-Secret" (req_headers req) = None ->
  preserves R (handle_webhook req).
Proof.
  intros Hh. unfold handle_webhook. rewrite Hh.
  apply preserves_try_except; [exact R_trans| |preserve].
  apply preserves_bind;
    [exact R_trans|now apply preserves_determine_projects_to_update|].
  intros targets.
  apply preserves_bind; [exact R_trans|apply preserves_update_projects|].
  intros results. preserve.
Qed.

Lemma preserves_manual_update : preserves R manual_update.
Proof.
  unfold manual_update.
  apply preserves_bind;
    [exact R_trans|now apply preserves_determine_projects_to_update|].
  intros targets.
  apply preserves_bind; [exact R_trans|apply preserves_update_projects|].
  intros results. destruct (any_value results); preserve.
Qed.

Lemma preserves_update_status : preserves R update_status.
Proof.
  unfold update_status.
  apply preserves_try_except; [exact R_trans| |preserve].
  apply preserves_bind;
    [exact R_trans|now apply preserves_determine_projects_to_update|].
  intros targets.
  apply preserves_bind;
    [exact R_trans|apply preserves_update_status_projects|].
  intros results. apply preserves_bind; [exact R_trans|preserve|].
  intros time. preserve.
Qed.

Hypothesis R_status : forall pid, preserves R (create_status_task pid).

Lemma preserves_setup_projects (targets : list string) :
  forall results, preserves R (setup_projects targets results).
Proof.
  induction targets as [|p rest IH]; intros results; cbn [setup_projects].
  - preserve.
  - apply preserves_bind; [exact R_trans| |intros b; apply IH].
    unfold setup_project.
    apply preserves_bind;
      [exact R_trans|now apply preserves_find_status_task|].
    intros found. apply preserves_bind; [exact R_trans| |].
    + destruct (negb (truthy found)); [apply R_status|preserve].
    + intros _. apply R_pass.
Qed.

Lemma preserves_setup : preserves R setup.
Proof.
  unfold setup.
  apply preserves_bind;
    [exact R_trans|now apply preserves_determine_projects_to_update|].
  intros targets.
  apply preserves_bind; [exact R_trans|apply preserves_setup_projects|].
  intros results. destruct (any_value results); preserve.
Qed.

End Handlers.

(** ** What the computations leave alone *)

Lemma same_config_trans (w1 w2 w3 : world) :
  same_config w1 w2 -> same_config w2 w3 -> same_config w1 w3.
Proof.
  intros (A1 & A2 & A3 & A4 & A5) (B1 & B2 & B3 & B4 & B5).
  repeat split; congruence.
Qed.

Lemma same_config_same (w w' : world) : same_store w w' -> same_config w w'.
Proof. intros (A1 & A2 & A3 & A4 & A5 & A6 & A7). repeat split; assumption. Qed.


Lemma keeps_tasks_update (tid notes : string) :
  keeps_config (tasks_update tid notes).
Proof.
  apply preserves_api_call;
    [exact same_config_trans|exact same_config_same|].
  intros w r w' H. destruct (lookup_task tid w); inversion H; subst;
    repeat split.
Qed.

Lemma keeps_tasks_create (name : string) (projects : list string)
    (ws notes : string) :
  keeps_config (tasks_create_in_workspace name projects ws notes).
Proof.
  apply preserves_api_call;
    [exact same_config_trans|exact same_config_same|].
  intros w r w' H. inversion H; subst. repeat split.
Qed.

Lemma keeps_update_project_metrics (pid : string) :
  keeps_config (update_project_metrics pid).
Proof.
  apply preserves_update_project_metrics.
  - exact same_config_trans.
  - exact same_config_same.
  - exact keeps_tasks_update.
  - intros projects ws notes. apply keeps_tasks_create.
Qed.

Lemma keeps_handle_events (req : http_request) :
  header_get "X-Hook-Secret" (req_headers req) = None ->
  keeps_config (handle_webhook req).
Proof.
  apply preserves_handle_events.
  - exact same_config_trans.
  - exact same_config_same.
  - exact keeps_update_project_metrics.
Qed.

(** ** What a pass does to the tasks *)

Lemma same_but_notes_written (st n : string) (ts : list task) :
  Forall2 same_but_notes ts (map (write_notes st n) ts).
Proof.
  induction ts as [|t rest IH]; cbn [map]; constructor; [|exact IH].
  unfold same_but_notes.
  rewrite write_notes_gid, write_notes_name, write_notes_projects.
  repeat split. unfold write_notes. now destruct (String.eqb (t_gid t) st).
Qed.

Lemma same_but_notes_refl (ts : list task) : Forall2 same_but_notes ts ts.
Proof. induction ts; constructor; [repeat split|assumption]. Qed.

(** The store after the second stage: at most one task was added, the
    status task of the project, and then at most the notes of the tasks
    with one gid were written. *)
Lemma with_status_task_tasks (pid e a : string) (tasks : list task_compact)
    (time : string) (w : world) (r : result bool) (w' : world) :
  with_status_task pid e a tasks time w = (r, w') ->
  exists extra,
    (extra = [] \/ extra = [new_status_task pid w]) /\
    (w_tasks w' = w_tasks w ++ extra \/
     r = Ok true /\
     exists st n t0,
       w_tasks w' = map (write_notes st n) (w_tasks w ++ extra) /\
       In t0 (w_tasks w ++ extra) /\ t_gid t0 = st /\
       t_name t0 = STATUS_TASK_NAME).
Proof.
  unfold with_status_task. unfold bind at 1. rewrite find_status_task_eq.
  unfold bind at 1.
  set (found := if w_faults w (w_calls w) then None
                else first_status_task (map compact (project_tasks pid w))).
  destruct (truthy found) eqn:Ef; cbn [negb].
  - unfold ret at 1. destruct found as [st|] eqn:Hfound; [|discriminate].
    rewrite Ef. cbn [negb]. intros H. exists []. rewrite app_nil_r.
    split; [now left|].
    apply write_back_any in H. destruct H as [[-> [n H]]|[_ H]].
    + right. split; [reflexivity|].
      assert (first_status_task (map compact (project_tasks pid w)) =
                Some st) as Hfirst.
      { unfold found in Hfound.
        now destruct (w_faults w (w_calls w)). }
      apply first_status_task_In in Hfirst.
      destruct Hfirst as (item & Hin & Hg & Hn).
      apply in_map_iff in Hin. destruct Hin as (t0 & <- & Hin).
      unfold project_tasks in Hin. apply filter_In in Hin.
      exists st, n, t0. tauto.
    + now left.
  - rewrite create_status_task_eq. world_simpl.
    destruct (w_faults w (S (w_calls w))) eqn:F1.
    { intros H. inversion H; subst. exists []. rewrite app_nil_r.
      split; now left. }
    destruct (lookup_project pid w) as [proj|].
    2:{ intros H. inversion H; subst. exists []. rewrite app_nil_r.
        split; now left. }
    destruct (String.eqb (p_workspace proj) "").
    { intros H. inversion H; subst. exists []. rewrite app_nil_r.
      split; now left. }
    destruct (w_faults w (S (S (w_calls w)))).
    { intros H. inversion H; subst. exists []. rewrite app_nil_r.
      split; now left. }
    cbn [truthy].
    destruct (String.eqb (w_new_gid w (w_created w)) ""); cbn [negb].
    { intros H. inversion H; subst. exists [new_status_task pid w].
      split; [now right|now left]. }
    intros H. exists [new_status_task pid w]. split; [now right|].
    apply write_back_any in H. destruct H as [[-> [n H]]|[_ H]].
    + right. split; [reflexivity|].
      exists (w_new_gid w (w_created w)), n, (new_status_task pid w).
      split; [exact H|]. split; [|split; reflexivity].
      apply in_or_app. right. now left.
    + now left.
Qed.

Lemma update_project_metrics_tasks (pid : string) (w : world)
    (r : result bool) (w' : world) :
  update_project_metrics pid w = (r, w') ->
  exists extra,
    (extra = [] \/ extra = [new_status_task pid w]) /\
    (w_tasks w' = w_tasks w ++ extra \/
     r = Ok true /\
     exists st n t0,
       w_tasks w' = map (write_notes st n) (w_tasks w ++ extra) /\
       In t0 (w_tasks w ++ extra) /\ t_gid t0 = st /\
       t_name t0 = STATUS_TASK_NAME).
Proof.
  rewrite update_project_metrics_stages. unfold try_except.
  unfold bind at 1. unfold now. unfold bind at 1.
  rewrite get_custom_fields_eq. world_simpl.
  set (gids := if w_faults w (w_calls w) then (None, None)
               else match lookup_project pid w with
                    | Some p => resolve_fields (p_settings p)
                    | None => (None, None)
                    end).
  assert (forall b w0, w_tasks w0 = w_tasks w ->
            (@Ok bool b, w0) = (r, w') ->
            exists extra,
              (extra = [] \/ extra = [new_status_task pid w]) /\
              (w_tasks w' = w_tasks w ++ extra \/
               r = Ok true /\
               exists st n t0,
                 w_tasks w' = map (write_notes st n) (w_tasks w ++ extra) /\
                 In t0 (w_tasks w ++ extra) /\ t_gid t0 = st /\
                 t_name t0 = STATUS_TASK_NAME))
    as Hsame.
  { intros b w0 Ht H. inversion H; subst. exists []. rewrite app_nil_r.
    split; now left. }
  destruct gids as [[e|] [a|]];
    try (unfold ret; now apply Hsame).
  destruct (negb (truthy (fst (Some e, Some a)))
            || negb (truthy (snd (Some e, Some a)))).
  { unfold ret; now apply Hsame. }
  unfold bind. rewrite tasks_find_by_project_eq. world_simpl.
  destruct (w_faults w (S (w_calls w))).
  { unfold ret; now apply Hsame. }
  match goal with |- context [with_status_task ?p ?e ?a ?l ?t ?w0] =>
    destruct (with_status_task p e a l t w0) as [[b|] w1] eqn:E end;
    unfold ret; intros H; inversion H; subst;
    apply with_status_task_tasks in E;
    destruct E as (extra & Hx & Ht); exists extra;
    (split; [exact Hx|]).
  - exact Ht.
  - destruct Ht as [Ht|[Ht _]]; [now left|discriminate].
Qed.

(** X6. A pass over a project never raises and never removes a task. It
    leaves the projects and the stored secret as they are; it adds at most
    one task, a task named [Project Status] that belongs to this project
    only; every other task keeps its gid, name, projects and custom fields,
    and when the pass returns [False] also its notes. *)
Theorem pass_keeps_tasks :
  forall (pid : string) (w : world),
    exists b w' extra,
      update_project_metrics pid w = (Ok b, w') /\
      w_projects w' = w_projects w /\
      WEBHOOK_SECRET w' = WEBHOOK_SECRET w /\
      (length extra <= 1)%nat /\
      Forall (fun t => t_name t = STATUS_TASK_NAME /\ t_projects t = [pid])
        extra /\
      Forall2 same_but_notes (w_tasks w ++ extra) (w_tasks w') /\
      (b = false -> w_tasks w' = w_tasks w ++ extra).
Proof.
  intros pid w.
  destruct (update_project_metrics_total pid w) as (b & w' & H).
  pose proof (keeps_update_project_metrics pid _ _ _ H)
    as (Hp & Hs & _).
  destruct (update_project_metrics_tasks pid w _ _ H)
    as (extra & Hx & Ht).
  exists b, w', extra. split; [exact H|].
  split; [exact Hp|]. split; [exact Hs|].
  split; [destruct Hx as [->| ->]; cbn; lia|].
  split.
  { destruct Hx as [->| ->]; [constructor|].
    constructor; [split; reflexivity|constructor]. }
  destruct Ht as [Ht|[Hb (st & n & t0 & Ht & _)]].
  - rewrite Ht. split; [apply same_but_notes_refl|reflexivity].
  - rewrite Ht. split; [apply same_but_notes_written|].
    inversion Hb; subst. discriminate.
Qed.

(** ** Creating and finding the status task *)




(** ** A project without the custom fields *)

(** X8. A pass over a project that is not eligible (unknown, or without a
    setting for one of the two cost fields), or whose settings cannot be
    fetched, returns [False] after that one client call: it lists no task,
    creates no status task and writes no note. *)
Theorem ineligible_project_untouched :
  forall (pid : string) (w : world),
    w_faults w (w_calls w) = true \/ eligibleb w pid = false ->
    update_project_metrics pid w =
      (Ok false, set_ticks (S (w_ticks w)) (tick w)).
Proof.
  intros pid w H. rewrite update_project_metrics_stages. unfold try_except.
  unfold bind at 1. unfold now. unfold bind at 1.
  rewrite get_custom_fields_eq. world_simpl.
  assert ((if w_faults w (w_calls w) then (None, None)
           else match lookup_project pid w with
                | Some p => resolve_fields (p_settings p)
                | None => (None, None)
                end) = (None, None) \/
          exists p, (if w_faults w (w_calls w) then (None, None)
                     else match lookup_project pid w with
                          | Some p => resolve_fields (p_settings p)
                          | None => (None, None)
                          end) = resolve_fields (p_settings p) /\
                    has_fields (p_settings p) = false) as Hg.
  { destruct H as [-> | H]; [now left|].
    destruct (w_faults w (w_calls w)); [now left|].
    unfold eligibleb in H.
    destruct (lookup_project pid w) as [p|]; [|now left].
    right. now exists p. }
  destruct Hg as [-> | (p & -> & Hp)]; [reflexivity|].
  unfold has_fields in Hp.
  destruct (resolve_fields (p_settings p)) as [[e|] [a|]]; try reflexivity.
  cbn [fst snd] in *.
  replace (negb (truthy (Some e)) || negb (truthy (Some a))) with true.
  - reflexivity.
  - symmetry. rewrite <- negb_andb. now rewrite Hp.
Qed.

Lemma ineligible_project_untouched_witness :
  update_project_metrics "P2" two_project_world =
    (Ok false, set_ticks 1 (tick two_project_world)).
Proof.
  apply (ineligible_project_untouched "P2" two_project_world).
  right. reflexivity.
Defined.

(** ** The targets of a request *)

Lemma member_In (x : string) (l : list string) :
  member x l = true <-> In x l.
Proof.
  unfold member. rewrite existsb_exists. split.
  - intros (y & Hy & E). apply String.eqb_eq in E. now subst.
  - intros H. exists x. split; [exact H|apply String.eqb_refl].
Qed.

Lemma NoDup_snoc (x : string) (l : list string) :
  NoDup l -> ~ In x l -> NoDup (l ++ [x]).
Proof.
  intros Hl Hx. apply NoDup_app. split; [exact Hl|]. split.
  - intros y Hy Hin. apply list_elem_of_singleton in Hin. subst y.
    apply Hx. now apply list_elem_of_In.
  - apply NoDup_singleton.
Qed.

Lemma add_task_projects_NoDup (projects : list string) :
  forall ptu w l w',
    add_task_projects projects ptu w = (Ok l, w') ->
    NoDup ptu -> NoDup l.
Proof.
  induction projects as [|p rest IH]; intros ptu w l w' H Hnd;
    cbn [add_task_projects] in H.
  - inversion H; subst. exact Hnd.
  - destruct (member p ptu) eqn:Em; [now apply IH in H|].
    unfold bind in H.
    destruct (get_custom_fields_test p w) as (gids & Hg & _).
    rewrite Hg in H.
    destruct (truthy (fst gids) && truthy (snd gids)).
    + apply IH in H; [exact H|]. apply NoDup_snoc; [exact Hnd|].
      intros Hin. apply member_In in Hin. congruence.
    + now apply IH in H.
Qed.

Lemma scan_events_NoDup (evs : list event) :
  forall ptu w l w',
    scan_events evs ptu w = (Ok l, w') -> NoDup ptu -> NoDup l.
Proof.
  induction evs as [|ev rest IH]; intros ptu w l w' H Hnd;
    cbn [scan_events] in H.
  - inversion H; subst. exact Hnd.
  - destruct (is_task_event ev); [|now apply IH in H].
    destruct (event_task_gid ev) as [g|]; [|now apply IH in H].
    destruct (truthy (Some g)); [|now apply IH in H].
    unfold bind at 1 in H. unfold try_except in H. unfold bind at 1 in H.
    destruct (tasks_find_by_id g w) as [[t|] w1].
    + destruct (add_task_projects (t_projects t) ptu w1)
        as [[l1|] w2] eqn:E1.
      * apply add_task_projects_NoDup in E1; [|exact Hnd].
        now apply IH in H.
      * unfold ret in H. now apply IH in H.
    + unfold ret in H. now apply IH in H.
Qed.

Lemma resolved_projects_In (w : world) (ps : list project) :
  forall k x, x ∈ resolved_projects w k ps -> x ∈ map p_gid ps.
Proof.
  induction ps as [|p rest IH]; intros k x; cbn [resolved_projects map].
  - tauto.
  - destruct (negb (w_faults w k) && eligibleb w (p_gid p)).
    + rewrite !elem_of_cons. intros [->|H]; [now left|].
      right. now apply (IH (S k)).
    + rewrite elem_of_cons. intros H. right. now apply (IH (S k)).
Qed.

Lemma resolved_projects_NoDup (w : world) (ps : list project) :
  forall k, NoDup (map p_gid ps) -> NoDup (resolved_projects w k ps).
Proof.
  induction ps as [|p rest IH]; intros k Hnd; cbn [resolved_projects].
  - constructor.
  - cbn [map] in Hnd. apply NoDup_cons in Hnd.
    destruct Hnd as [Hp Hrest].
    destruct (negb (w_faults w k) && eligibleb w (p_gid p)).
    + apply NoDup_cons. split; [|now apply IH].
      intros Hx. apply Hp. now apply (resolved_projects_In w rest (S k)).
    + now apply IH.
Qed.

Lemma filter_gids_NoDup (f : project -> bool) (ps : list project) :
  NoDup (map p_gid ps) -> NoDup (map p_gid (List.filter f ps)).
Proof.
  induction ps as [|p rest IH]; intros Hnd; cbn [List.filter map].
  - constructor.
  - cbn [map] in Hnd. apply NoDup_cons in Hnd.
    destruct Hnd as [Hp Hrest].
    destruct (f p); [|now apply IH].
    cbn [map]. apply NoDup_cons. split; [|now apply IH].
    intros Hx. apply Hp. apply list_elem_of_In, in_map_iff in Hx.
    destruct Hx as (q & Hq & Hin). apply filter_In in Hin.
    apply list_elem_of_In, in_map_iff. exists q. tauto.
Qed.

Lemma expected_fallback_NoDup (w : world) :
  NoDup (map p_gid (w_projects w)) -> NoDup (expected_fallback w).
Proof.
  intros Hnd. unfold expected_fallback. apply resolved_projects_NoDup.
  unfold enumerated_projects.
  destruct (w_faults w (w_calls w)); [constructor|].
  destruct (lookup_project TEMPLATE_PROJECT_ID w) as [t|]; [|constructor].
  destruct (String.eqb (p_workspace t) ""); [constructor|].
  destruct (w_faults w (S (w_calls w))); [constructor|].
  now apply filter_gids_NoDup.
Qed.

(** X9. No project is a target twice. The projects named by the events
    of a delivery are listed once each, whichever calls fail; and when the
    gids of the projects of the store are distinct, so are the targets of
    every request, the fallback included. *)
Theorem targets_listed_once :
  forall (data : option event_data) (w : world) (l : list string)
         (w' : world),
    determine_projects_to_update data w = (Ok l, w') ->
    (forall l0 w0, event_projects data w = (Ok l0, w0) -> NoDup l0) /\
    (NoDup (map p_gid (w_projects w)) -> NoDup l).
Proof.
  intros data w l w' H.
  assert (forall l0 w0, event_projects data w = (Ok l0, w0) ->
            NoDup l0) as Hev.
  { intros l0 w0 E. unfold event_projects in E.
    destruct data as [d|]; [|inversion E; constructor].
    destruct (events d) as [evs|]; [|inversion E; constructor].
    apply scan_events_NoDup in E; [exact E|constructor]. }
  split; [exact Hev|]. intros Hnd.
  unfold determine_projects_to_update, bind in H.
  destruct (event_projects_sound data w) as (l0 & n & E & _).
  rewrite E in H. destruct l0 as [|p l0].
  - destruct (workspace_projects_expected (set_calls n w)) as (m & Hw).
    rewrite Hw in H. inversion H; subst.
    now apply expected_fallback_NoDup.
  - unfold ret in H. inversion H; subst. now apply (Hev _ _ E).
Qed.

Lemma targets_listed_once_witness :
  exists l w',
    determine_projects_to_update (Some (task_event "t1")) two_project_world
      = (Ok l, w') /\
    NoDup l.
Proof.
  destruct (determine_projects_to_update (Some (task_event "t1"))
              two_project_world) as [[l|] w'] eqn:E.
  - exists l, w'. split; [reflexivity|].
    apply (targets_listed_once _ _ _ _ E).
    apply (bool_decide_unpack _). vm_compute. reflexivity.
  - vm_compute in E. discriminate.
Defined.

Lemma scan_events_skip (evs : list event) :
  forall ptu,
    (forall ev, In ev evs -> names_task ev = false) ->
    scan_events evs ptu = ret ptu.
Proof.
  induction evs as [|ev rest IH]; intros ptu H; cbn [scan_events].
  - reflexivity.
  - assert (names_task ev = false) as Hev by (apply H; now left).
    assert (scan_events rest ptu = ret ptu) as Hrest.
    { apply IH. intros ev' Hin. apply H. now right. }
    unfold names_task in Hev.
    destruct (is_task_event ev); [|exact Hrest].
    destruct (event_task_gid ev) as [g|]; [|exact Hrest].
    cbn [andb] in Hev. rewrite Hev. exact Hrest.
Qed.

(** X10. Events that are not about a task, or that carry no gid, cost no
    client call and name no project. A delivery made of such events only,
    an empty one included, is answered like a manual trigger: every
    eligible project of the workspace of the template project is a
    target. *)
Theorem delivery_without_task_events :
  forall (evs : list event) (w : world),
    (forall ev, In ev evs -> names_task ev = false) ->
    event_projects (Some {| events := Some evs |}) w = (Ok [], w) /\
    determine_projects_to_update (Some {| events := Some evs |}) w =
      determine_projects_to_update None w /\
    exists n,
      determine_projects_to_update (Some {| events := Some evs |}) w =
        (Ok (expected_fallback w), set_calls n w).
Proof.
  intros evs w H.
  assert (event_projects (Some {| events := Some evs |}) w = (Ok [], w))
    as Hev.
  { unfold event_projects. cbn [events].
    now rewrite (scan_events_skip evs [] H). }
  split; [exact Hev|].
  assert (determine_projects_to_update (Some {| events := Some evs |}) w =
            determine_projects_to_update None w) as Heq.
  { unfold determine_projects_to_update, bind. rewrite Hev. reflexivity. }
  split; [exact Heq|]. rewrite Heq.
  unfold determine_projects_to_update, bind. cbn [event_projects ret].
  apply workspace_projects_expected.
Qed.

Lemma delivery_without_task_events_witness :
  exists n,
    determine_projects_to_update
      (Some {| events :=
                 Some [{| ev_resource := None |};
                       {| ev_resource :=
                            Some {| resource_type := Some "project"%string;
                                    resource_gid := Some "P2"%string |} |};
                       {| ev_resource :=
                            Some {| resource_type := Some "task"%string;
                                    resource_gid := None |} |}] |})
      two_project_world
    = (Ok ["P1"%string], set_calls n two_project_world).
Proof.
  apply (delivery_without_task_events _ two_project_world).
  intros ev [<-|[<-|[<-|[]]]]; reflexivity.
Defined.

(** X11. An event for a task that cannot be fetched, because the call
    fails or the task is not in the store any more, is dropped after that
    one call and the next events are read as if it had not been there.
    When it is the only event of the delivery, the request falls back to
    the projects of the workspace of the template project. *)
Theorem unfetchable_task_event_dropped :
  forall (g : string) (w : world),
    g <> ""%string ->
    w_faults w (w_calls w) = true \/ lookup_task g w = None ->
    (forall rest ptu,
       scan_events (task_change g :: rest) ptu w =
         scan_events rest ptu (tick w)) /\
    exists n,
      determine_projects_to_update (Some (task_event g)) w =
        (Ok (expected_fallback (tick w)), set_calls n w).
Proof.
  intros g w Hg H.
  assert (forall rest ptu,
            scan_events (task_change g :: rest) ptu w =
              scan_events rest ptu (tick w)) as Hscan.
  { intros rest ptu. cbn [scan_events task_change is_task_event
      event_task_gid ev_resource resource_type resource_gid].
    rewrite bool_decide_eq_true_2 by reflexivity.
    apply String.eqb_neq in Hg. cbn [truthy]. rewrite Hg. cbn [negb].
    unfold bind at 1. unfold try_except. unfold bind at 1.
    unfold tasks_find_by_id, api_call.
    destruct H as [-> | H]; [reflexivity|].
    destruct (w_faults w (w_calls w)); [reflexivity|].
    world_simpl. now rewrite H. }
  split; [exact Hscan|].
  unfold determine_projects_to_update, bind, event_projects, task_event.
  cbn [events]. fold (task_change g). rewrite Hscan. cbn [scan_events ret].
  destruct (workspace_projects_expected (tick w)) as (n & ->).
  exists n. reflexivity.
Qed.

Lemma unfetchable_task_event_dropped_witness :
  exists n,
    determine_projects_to_update (Some (task_event "gone"))
      two_project_world
    = (Ok ["P1"%string], set_calls n two_project_world).
Proof.
  apply (unfetchable_task_event_dropped "gone" two_project_world).
  - apply String.eqb_neq. reflexivity.
  - right. reflexivity.
Defined.

(** ** The stored secret *)

(** X12. After any sequence of requests on [/webhook], the stored secret
    is the one of the last handshake among them: a later handshake
    replaces the secret of an earlier one, and deliveries of events, which
    are not checked against it, leave it as it is. Nothing else is ever
    stored in [WEBHOOK_SECRET]. *)
Theorem stored_secret_is_last_handshake :
  forall (reqs : list http_request) (w : world),
    WEBHOOK_SECRET (serve_all reqs w) =
      match last_handshake reqs with
      | Some secret => <["secret"%string := secret]> (WEBHOOK_SECRET w)
      | None => WEBHOOK_SECRET w
      end.
Proof.
  induction reqs as [|req rest IH]; intros w; cbn [serve_all last_handshake].
  - reflexivity.
  - rewrite IH.
    destruct (header_get "X-Hook-Secret" (req_headers req)) as [s|] eqn:Hh.
    + unfold handle_webhook. rewrite Hh. cbn [snd set_secret WEBHOOK_SECRET].
      destruct (last_handshake rest) as [s'|]; [|reflexivity].
      apply insert_insert_eq.
    + pose proof (keeps_handle_events req Hh w) as Hk.
      destruct (handle_webhook req w) as [r w1].
      destruct (Hk _ _ eq_refl) as (_ & Hs & _). cbn [snd]. rewrite Hs.
      now destruct (last_handshake rest).
Qed.

(** ** The endpoints [/update] and [/setup] *)

Lemma any_value_true (results : gmap string bool) :
  any_value results = true <-> exists pid, results !! pid = Some true.
Proof.
  unfold any_value. rewrite existsb_exists. split.
  - intros ([pid b] & Hin & Hb). cbn in Hb. subst b. exists pid.
    apply elem_of_map_to_list. now apply list_elem_of_In.
  - intros (pid & H). exists (pid, true). split; [|reflexivity].
    apply list_elem_of_In. now apply elem_of_map_to_list.
Qed.

Lemma setup_project_total (pid : string) (w : world) :
  exists b w', setup_project pid w = (Ok b, w').
Proof.
  unfold setup_project. unfold bind at 1. rewrite find_status_task_eq.
  unfold bind at 1.
  match goal with |- context [negb (truthy ?f)] =>
    destruct (negb (truthy f)) end.
  - pose proof (create_status_task_eq pid (tick w)) as Hc.
    destruct (create_status_task pid (tick w)) as [[r|] w1].
    + apply update_project_metrics_total.
    + repeat match type of Hc with
             | context [if ?x then _ else _] => destruct x
             | context [match ?x with _ => _ end] => destruct x
             end; discriminate.
  - unfold ret. apply update_project_metrics_total.
Qed.

Lemma setup_projects_total (targets : list string) :
  forall results w,
    exists r w', setup_projects targets results w = (Ok r, w').
Proof.
  induction targets as [|pid rest IH]; intros results w; cbn [setup_projects].
  - now exists results, w.
  - unfold bind. destruct (setup_project_total pid w) as (b & w1 & ->).
    apply IH.
Qed.

Lemma setup_projects_dom (targets : list string) :
  forall (results : gmap string bool) w r w',
    setup_projects targets results w = (Ok r, w') ->
    dom r = dom results ∪ list_to_set targets.
Proof.
  induction targets as [|pid rest IH]; intros results w r w' H;
    cbn [setup_projects] in H.
  - inversion H; subst. simpl. now rewrite (right_id_L ∅ (∪)).
  - unfold bind in H. destruct (setup_project_total pid w) as (b & w1 & E).
    rewrite E in H. apply IH in H. rewrite H, dom_insert_L. simpl.
    now rewrite (assoc_L (∪)), (comm_L (∪) (dom results)).
Qed.

Lemma answer_by_results (s1 m1 s2 m2 : string)
    (results : gmap string bool) (w : world) :
  exists resp,
    (if any_value results then
       ret {| er_status := 200; er_body := JResults s1 m1 results |}
     else
       ret {| er_status := 500; er_body := JResults s2 m2 results |}) w
      = (Ok resp, w) /\
    (er_status resp = 200%nat <-> exists pid, results !! pid = Some true) /\
    (er_status resp = 500%nat <->
     ~ exists pid, results !! pid = Some true) /\
    exists status message, er_body resp = JResults status message results.
Proof.
  pose proof (any_value_true results) as Hany.
  destruct (any_value results).
  - eexists. split; [reflexivity|]. cbn [er_status er_body].
    assert (exists pid, results !! pid = Some true) as Hex
      by now apply Hany.
    split; [tauto|]. split; [|now eexists _, _].
    split; [discriminate|tauto].
  - eexists. split; [reflexivity|]. cbn [er_status er_body].
    assert (~ exists pid, results !! pid = Some true) as Hex.
    { intros Hex. apply Hany in Hex. discriminate. }
    split; [|split; [tauto|now eexists _, _]].
    split; [discriminate|tauto].
Qed.

(** X13. [/update] and [/setup] never raise. Their targets are the
    projects of the fallback, all eligible; the results hold one outcome
    for each target; the answer is 200 exactly when the pass over at least
    one project returned [True], and 500 otherwise, in particular when
    there is no target at all. [/update] does to the store what a delivery
    without events on [/webhook] does, which is answered 200 whatever the
    outcomes. *)
Theorem update_and_setup_answers :
  forall (w : world),
    exists targets w0,
      determine_projects_to_update None w = (Ok targets, w0) /\
      (forall pid, In pid targets -> eligibleb w pid = true) /\
      (exists results w' resp,
         update_projects targets ∅ w0 = (Ok results, w') /\
         manual_update w = (Ok resp, w') /\
         handle_webhook manual_request w =
           (Ok {| resp_status := 200; resp_headers := [];
                  resp_body := JReceived results |}, w') /\
         dom results = list_to_set targets /\
         (er_status resp = 200%nat <->
          exists pid, results !! pid = Some true) /\
         (er_status resp = 500%nat <->
          ~ exists pid, results !! pid = Some true) /\
         exists status message,
           er_body resp = JResults status message results) /\
      (exists results w' resp,
         setup_projects targets ∅ w0 = (Ok results, w') /\
         setup w = (Ok resp, w') /\
         dom results = list_to_set targets /\
         (er_status resp = 200%nat <->
          exists pid, results !! pid = Some true) /\
         (er_status resp = 500%nat <->
          ~ exists pid, results !! pid = Some true) /\
         exists status message,
           er_body resp = JResults status message results).
Proof.
  intros w.
  destruct (determine_projects_to_update_sound None w)
    as (targets & n & Hd & Hel).
  exists targets, (set_calls n w). split; [exact Hd|].
  split; [exact Hel|]. split.
  - destruct (update_projects_total targets ∅ (set_calls n w))
      as (results & w' & Hu).
    pose proof (update_projects_dom _ _ _ _ _ Hu) as Hdom.
    rewrite dom_empty_L, (left_id_L ∅ (∪)) in Hdom.
    destruct (answer_by_results "success"
                "Project statuses manually updated" "error"
                "Failed to update project statuses" results w')
      as (resp & Hr & Hrest).
    exists results, w', resp. split; [exact Hu|].
    split; [|split; [|split; [exact Hdom|exact Hrest]]].
    + unfold manual_update, bind. rewrite Hd, Hu. exact Hr.
    + unfold handle_webhook.
      cbn [manual_request req_headers req_json header_get List.find
           option_map].
      unfold try_except, bind. rewrite Hd, Hu. reflexivity.
  - destruct (setup_projects_total targets ∅ (set_calls n w))
      as (results & w' & Hu).
    pose proof (setup_projects_dom _ _ _ _ _ Hu) as Hdom.
    rewrite dom_empty_L, (left_id_L ∅ (∪)) in Hdom.
    destruct (answer_by_results "success"
                "Project status tasks created and metrics updated" "error"
                "Failed to setup project status" results w')
      as (resp & Hr & Hrest).
    exists results, w', resp. split; [exact Hu|].
    split; [|split; [exact Hdom|exact Hrest]].
    unfold setup, bind. rewrite Hd, Hu. exact Hr.
Qed.

(** X14. When no project is a target, because the template project
    cannot be read, its workspace has no eligible project, or the calls
    that enumerate them fail, [/update] and [/setup] answer 500 with empty
    results and leave every task as it is, while a delivery on [/webhook]
    is answered 200. *)
Theorem no_target_no_update :
  forall (w : world),
    expected_fallback w = [] ->
    exists n,
      manual_update w =
        (Ok {| er_status := 500;
               er_body :=
                 JResults "error" "Failed to update project statuses" ∅ |},
         set_calls n w) /\
      setup w =
        (Ok {| er_status := 500;
               er_body :=
                 JResults "error" "Failed to setup project status" ∅ |},
         set_calls n w) /\
      handle_webhook manual_request w =
        (Ok {| resp_status := 200; resp_headers := [];
               resp_body := JReceived ∅ |}, set_calls n w).
Proof.
  intros w H.
  assert (exists n, determine_projects_to_update None w =
                      (Ok [], set_calls n w)) as (n & Hd).
  { unfold determine_projects_to_update, bind. cbn [event_projects ret].
    destruct (workspace_projects_expected w) as (n & ->).
    rewrite H. now exists n. }
  exists n. unfold manual_update, setup, handle_webhook, try_except, bind.
  cbn [manual_request req_headers req_json header_get List.find option_map].
  rewrite Hd. cbn [update_projects setup_projects ret]. repeat split.
Qed.

Lemma no_target_no_update_witness :
  exists n,
    manual_update (lone_project_world no_faults) =
      (Ok {| er_status := 500;
             er_body :=
               JResults "error" "Failed to update project statuses" ∅ |},
       set_calls n (lone_project_world no_faults)).
Proof.
  destruct (no_target_no_update (lone_project_world no_faults) eq_refl)
    as (n & H & _).
  exists n. exact H.
Defined.




(** ** The endpoint [/register-webhook] *)

(** X16. [/register-webhook] never raises and never touches a task or a
    project. It answers 200 only after it has read the workspace of the
    template project and the service has created one webhook, on that
    workspace and with the fixed https address of [/webhook] as target,
    whose gid it returns. Otherwise it answers 500 and no webhook has been
    created; when the workspace cannot be read (the call fails, the
    template project is unknown, or its workspace gid is empty) it does so
    without asking the service for a webhook. *)
Theorem register_webhook_outcomes :
  forall (hw : hook_world),
    exists resp hw',
      register_webhook hw = (Ok resp, hw') /\
      w_tasks (hw_world hw') = w_tasks (hw_world hw) /\
      w_projects (hw_world hw') = w_projects (hw_world hw) /\
      ((er_status resp = 200%nat /\
        exists template webhook,
          lookup_project TEMPLATE_PROJECT_ID (hw_world hw) = Some template /\
          p_workspace template <> ""%string /\
          hw_webhooks hw' = hw_webhooks hw ++ [webhook] /\
          wh_resource webhook = p_workspace template /\
          wh_target webhook = WEBHOOK_TARGET /\
          er_body resp =
            JRegistered
              ("Webhook registered for workspace " +:+ p_workspace template)
              (wh_gid webhook) WEBHOOK_TARGET /\
          w_calls (hw_world hw') = (2 + w_calls (hw_world hw))%nat) \/
       (er_status resp = 500%nat /\
        hw_webhooks hw' = hw_webhooks hw /\
        (w_faults (hw_world hw) (w_calls (hw_world hw)) = true \/
         option_map p_workspace
           (lookup_project TEMPLATE_PROJECT_ID (hw_world hw)) = None \/
         option_map p_workspace
           (lookup_project TEMPLATE_PROJECT_ID (hw_world hw))
           = Some ""%string ->
         er_body resp =
           JMessage "error" "Could not determine workspace ID" /\
         w_calls (hw_world hw') = S (w_calls (hw_world hw))))).
Proof.
  intros hw. unfold register_webhook, lift.
  rewrite get_project_workspace_eq.
  destruct (w_faults (hw_world hw) (w_calls (hw_world hw))) eqn:F0.
  { eexists _, _. split; [reflexivity|]. cbn. split; [reflexivity|].
    split; [reflexivity|]. right. auto. }
  destruct (lookup_project TEMPLATE_PROJECT_ID (hw_world hw))
    as [template|] eqn:Hp; cbn [option_map].
  2:{ eexists _, _. split; [reflexivity|]. cbn. split; [reflexivity|].
      split; [reflexivity|]. right. auto. }
  cbn [truthy].
  destruct (String.eqb (p_workspace template) "") eqn:Hws; cbn [negb].
  { eexists _, _. split; [reflexivity|]. cbn. split; [reflexivity|].
    split; [reflexivity|]. right. auto. }
  apply String.eqb_neq in Hws.
  unfold webhooks_create. cbn [hw_world set_world hw_webhooks hw_new_gid].
  world_simpl.
  destruct (w_faults (hw_world hw) (S (w_calls (hw_world hw)))).
  - eexists _, _. split; [reflexivity|]. cbn. split; [reflexivity|].
    split; [reflexivity|]. right. split; [reflexivity|].
    split; [reflexivity|].
    intros [H|[H|H]]; [discriminate|discriminate|].
    inversion H. congruence.
  - eexists _, _. split; [reflexivity|]. cbn. split; [reflexivity|].
    split; [reflexivity|]. left. split; [reflexivity|].
    eexists template, _. split; [reflexivity|]. split; [exact Hws|].
    split; [reflexivity|]. repeat split.
Qed.

Lemma register_webhook_outcomes_witness :
  exists resp hw',
    register_webhook
      (example_hook_world (lone_project_world no_faults)) = (Ok resp, hw') /\
    er_status resp = 500%nat /\
    hw_webhooks hw' = [] /\
    er_body resp = JMessage "error" "Could not determine workspace ID".
Proof.
  destruct (register_webhook_outcomes
              (example_hook_world (lone_project_world no_faults)))
    as (resp & hw' & H & _ & _ & [[H200 (t & _ & Ht & _)]|(H1 & H2 & H3)]).
  - vm_compute in Ht. discriminate.
  - exists resp, hw'. split; [exact H|]. split; [exact H1|].
    split; [exact H2|]. apply H3. right. left. reflexivity.
Defined.

(** ** The endpoint [/update-status] *)








(** ** The note a pass writes *)







(** ** The targets of a task event *)

Lemma add_task_projects_fault_free (projects : list string) :
  forall ptu w,
    fault_free w ->
    NoDup projects ->
    (forall p, In p projects -> ~ In p ptu) ->
    exists n,
      add_task_projects projects ptu w =
        (Ok (ptu ++ List.filter (eligibleb w) projects), set_calls n w).
Proof.
  induction projects as [|p rest IH]; intros ptu w Hff Hnd Hdis;
    cbn [add_task_projects List.filter].
  - exists (w_calls w). rewrite app_nil_r. unfold ret. now destruct w.
  - apply NoDup_cons in Hnd. destruct Hnd as [Hp Hrest].
    destruct (member p ptu) eqn:Em.
    { apply member_In in Em. exfalso. apply (Hdis p); [now left|exact Em]. }
    unfold bind.
    destruct (get_custom_fields_test p w) as (gids & -> & ->).
    rewrite (Hff _). cbn [negb andb].
    destruct (eligibleb w p).
    + destruct (IH (ptu ++ [p]) (tick w)) as [n Hn].
      * intros k. apply Hff.
      * exact Hrest.
      * intros q Hq Hin. apply in_app_or in Hin.
        destruct Hin as [Hin|[->|[]]].
        -- apply (Hdis q); [now right|exact Hin].
        -- apply Hp. now apply list_elem_of_In.
      * exists n. rewrite Hn. rewrite <- app_assoc. reflexivity.
    + destruct (IH ptu (tick w)) as [n Hn].
      * intros k. apply Hff.
      * exact Hrest.
      * intros q Hq. apply Hdis. now right.
      * exists n. rewrite Hn. reflexivity.
Qed.

(** The targets of a delivery with one event, a change of a task of the
    store, when no call fails. *)
Lemma task_event_fault_free (g : string) (t : task) (w : world) :
  fault_free w ->
  g <> ""%string ->
  lookup_task g w = Some t ->
  NoDup (t_projects t) ->
  exists n,
    determine_projects_to_update (Some (task_event g)) w =
      (Ok (match List.filter (eligibleb w) (t_projects t) with
           | [] => expected_workspace_projects w
           | p :: l => p :: l
           end), set_calls n w).
Proof.
  intros Hff Hg Ht Hnd.
  unfold determine_projects_to_update. unfold bind at 1.
  unfold event_projects, task_event. cbn [events scan_events].
  unfold is_task_event, event_task_gid.
  cbn [ev_resource resource_type resource_gid].
  rewrite bool_decide_eq_true_2 by reflexivity.
  cbn [truthy]. apply String.eqb_neq in Hg. rewrite Hg. cbn [negb].
  unfold bind at 1. unfold try_except. unfold bind at 1.
  unfold tasks_find_by_id, api_call. rewrite (Hff _). world_simpl.
  rewrite Ht.
  destruct (add_task_projects_fault_free (t_projects t) []
              (set_calls (S (w_calls w)) w)) as [n Hn].
  { intros k. apply Hff. }
  { exact Hnd. }
  { intros p _ []. }
  rewrite Hn. cbn [app ret].
  change (List.filter (eligibleb (set_calls (S (w_calls w)) w)))
    with (List.filter (eligibleb w)).
  destruct (List.filter (eligibleb w) (t_projects t)) as [|p l].
  - destruct (workspace_projects_fault_free
                (set_calls n (set_calls (S (w_calls w)) w))) as [m Hm].
    { intros k. apply Hff. }
    rewrite Hm. exists m. reflexivity.
  - exists n. reflexivity.
Qed.

(** X19. On a store where no call fails, the targets of a delivery with
    one event, a change of a task of the store, are the eligible projects
    the task belongs to, in the order the task lists them. When none of
    them is eligible, or the task is in no project, the targets are all the
    eligible projects of the workspace of the template project. *)
Theorem task_event_targets :
  forall (g : string) (t : task) (w : world),
    fault_free w ->
    g <> ""%string ->
    lookup_task g w = Some t ->
    NoDup (t_projects t) ->
    exists n,
      determine_projects_to_update (Some (task_event g)) w =
        (Ok (match List.filter (eligibleb w) (t_projects t) with
             | [] => expected_workspace_projects w
             | p :: l => p :: l
             end), set_calls n w).
Proof. intros g t w. apply task_event_fault_free. Qed.

Lemma task_event_targets_witness :
  exists n,
    determine_projects_to_update (Some (task_event "t2"))
      (three_project_world no_faults)
    = (Ok ["P2"%string], set_calls n (three_project_world no_faults)).
Proof.
  apply (task_event_targets "t2"
           (example_task "t2" "Roof" "P2" (Some 100%Q) (Some 80%Q))
           (three_project_world no_faults)).
  - intros k. reflexivity.
  - apply String.eqb_neq. reflexivity.
  - reflexivity.
  - apply (bool_decide_unpack _). vm_compute. reflexivity.
Defined.

(** ** From an event to the note *)



(** ** Passes over different projects *)

Lemma project_tasks_extra (pid q : string) (w w1 : world)
    (extra : list task) :
  q <> pid ->
  extra = [] \/ extra = [new_status_task pid w] ->
  w_tasks w1 = w_tasks w ++ extra ->
  project_tasks q w1 = project_tasks q w.
Proof.
  intros Hq Hx Ht. unfold project_tasks. rewrite Ht, List.filter_app.
  destruct Hx as [->| ->]; cbn [List.filter]; [apply app_nil_r|].
  cbn [new_status_task t_projects member existsb].
  apply String.eqb_neq in Hq. rewrite Hq. cbn [orb]. apply app_nil_r.
Qed.

(** X21. A pass over a project does not interfere with the others,
    whatever its outcome: the listing of every other project is as before,
    and so are the totals computed from it, since a pass writes notes and
    never a cost field. *)
Theorem passes_do_not_interfere :
  forall (pid q : string) (w : world) (b : bool) (w' : world),
    update_project_metrics pid w = (Ok b, w') ->
    q <> pid ->
    map compact (project_tasks q w') = map compact (project_tasks q w) /\
    forall st e a,
      aggregate st e a w' (map compact (project_tasks q w')) no_totals =
        aggregate st e a w (map compact (project_tasks q w)) no_totals.
Proof.
  intros pid q w b w' H Hq.
  destruct (update_project_metrics_tasks pid w _ _ H) as (extra & Hx & Ht).
  set (w1 := set_tasks (w_tasks w ++ extra) w).
  assert (project_tasks q w1 = project_tasks q w) as Hq1.
  { now apply (project_tasks_extra pid q w w1 extra). }
  assert (map compact (project_tasks q w') = map compact (project_tasks q w))
    as Hl.
  { destruct Ht as [Ht|[_ (st & n & t0 & Ht & _)]].
    - now rewrite (project_tasks_extra pid q w w' extra).
    - rewrite (listing_written q st n w1 w' Ht). now rewrite Hq1. }
  split; [exact Hl|]. intros st e a. rewrite Hl. symmetry.
  apply aggregate_ext. intros item Hin _.
  pose proof (listing_fetchable q w item Hin) as Hf.
  destruct (lookup_task (tc_gid item) w) as [d|] eqn:Ed; [|congruence].
  assert (lookup_task (tc_gid item) w1 = Some d) as Ed1.
  { now apply (lookup_task_app (tc_gid item) d w w1 extra). }
  destruct Ht as [Ht|[_ (st' & n & t0 & Ht & _)]].
  - exists d, d. split; [reflexivity|]. split; [|reflexivity].
    now apply (lookup_task_app (tc_gid item) d w w' extra).
  - exists d, (write_notes st' n d). split; [reflexivity|].
    split; [|symmetry; apply write_notes_costs].
    now rewrite (lookup_task_written (tc_gid item) st' n w1 w' Ht), Ed1.
Qed.

Lemma passes_do_not_interfere_witness :
  map compact
    (project_tasks "P2"
       (snd (update_project_metrics "P1" (three_project_world no_faults))))
  = map compact (project_tasks "P2" (three_project_world no_faults)).
Proof.
  destruct (update_project_metrics "P1" (three_project_world no_faults))
    as [[b|] w'] eqn:E.
  - apply (passes_do_not_interfere "P1" "P2" _ b w' E).
    apply String.eqb_neq. reflexivity.
  - vm_compute in E. discriminate.
Defined.

(** ** What a request may do to the store *)

Lemma same_but_notes_trans (t1 t2 t3 : task) :
  same_but_notes t1 t2 -> same_but_notes t2 t3 -> same_but_notes t1 t3.
Proof.
  intros (A1 & A2 & A3 & A4) (B1 & B2 & B3 & B4).
  repeat split; congruence.
Qed.

Lemma same_but_notes_all_trans (l1 : list task) :
  forall l2 l3,
    Forall2 same_but_notes l1 l2 -> Forall2 same_but_notes l2 l3 ->
    Forall2 same_but_notes l1 l3.
Proof.
  induction l1 as [|t1 l1 IH]; intros l2 l3 H12 H23.
  - inversion H12; subst. inversion H23; subst. constructor.
  - inversion H12; subst. inversion H23; subst. constructor.
    + eapply same_but_notes_trans; eassumption.
    + eapply IH; eassumption.
Qed.

Lemma same_but_notes_In (l l' : list task) :
  Forall2 same_but_notes l l' ->
  forall t, In t l -> exists t', In t' l' /\ same_but_notes t t'.
Proof.
  induction 1 as [|x y k k' Hxy _ IH]; intros t Hin.
  - destruct Hin.
  - destruct Hin as [<-|Hin].
    + exists y. split; [now left|exact Hxy].
    + destruct (IH t Hin) as (t' & Ht' & Hs).
      exists t'. split; [now right|exact Hs].
Qed.

Lemma store_grows_same_tasks (w w' : world) :
  w_projects w' = w_projects w -> w_tasks w' = w_tasks w ->
  store_grows w w'.
Proof.
  intros Hp Ht. split; [exact Hp|]. exists []. split; [constructor|].
  rewrite app_nil_r, Ht. apply same_but_notes_refl.
Qed.

Lemma store_grows_refl (w : world) : store_grows w w.
Proof. now apply store_grows_same_tasks. Qed.

Lemma store_grows_trans (w1 w2 w3 : world) :
  store_grows w1 w2 -> store_grows w2 w3 -> store_grows w1 w3.
Proof.
  intros (P1 & x1 & S1 & F1) (P2 & x2 & S2 & F2).
  split; [congruence|]. exists (x1 ++ x2).
  split; [now apply Forall_app|].
  rewrite app_assoc.
  apply (same_but_notes_all_trans _ (w_tasks w2 ++ x2)); [|exact F2].
  apply Forall2_app; [exact F1|apply same_but_notes_refl].
Qed.

Lemma store_grows_same (w w' : world) : same_store w w' -> store_grows w w'.
Proof.
  intros (Hp & Ht & _). now apply store_grows_same_tasks.
Qed.

(** The two calls that write: a new status task, a new note. *)
Lemma grows_create_status (projects : list string) (ws notes : string) :
  only_grows
    (tasks_create_in_workspace STATUS_TASK_NAME projects ws notes).
Proof.
  apply preserves_api_call;
    [exact store_grows_trans|exact store_grows_same|].
  intros w r w' H. inversion H; subst.
  split; [reflexivity|].
  exists [{| t_gid := w_new_gid w (w_created w);
             t_name := STATUS_TASK_NAME; t_projects := projects;
             t_custom_fields := Some []; t_notes := notes |}].
  split.
  - constructor; [reflexivity|constructor].
  - apply same_but_notes_refl.
Qed.

Lemma grows_tasks_update (tid notes : string) :
  only_grows (tasks_update tid notes).
Proof.
  apply preserves_api_call;
    [exact store_grows_trans|exact store_grows_same|].
  intros w r w' H.
  destruct (lookup_task tid w); inversion H; subst.
  - split; [reflexivity|]. exists []. split; [constructor|].
    rewrite app_nil_r. apply same_but_notes_written.
  - apply store_grows_refl.
Qed.

Lemma grows_update_project_metrics (pid : string) :
  only_grows (update_project_metrics pid).
Proof.
  apply preserves_update_project_metrics.
  - exact store_grows_trans.
  - exact store_grows_same.
  - exact grows_tasks_update.
  - exact grows_create_status.
Qed.

Lemma grows_create_status_task (pid : string) :
  only_grows (create_status_task pid).
Proof.
  apply preserves_create_status_task.
  - exact store_grows_trans.
  - exact store_grows_same.
  - exact grows_create_status.
Qed.

Lemma grows_handle_webhook (req : http_request) :
  only_grows (handle_webhook req).
Proof.
  destruct (header_get "X-Hook-Secret" (req_headers req)) as [secret|]
    eqn:Hh.
  - unfold handle_webhook. rewrite Hh.
    intros w r w' H. inversion H; subst.
    now apply store_grows_same_tasks.
  - apply preserves_handle_events; [exact store_grows_trans| | |exact Hh].
    + exact store_grows_same.
    + exact grows_update_project_metrics.
Qed.

(** X22. No request deletes a task, renames one, moves it to another
    project or changes a cost field, and no request changes a project: all
    that the handlers of [/webhook], [/update], [/setup], [/update-status]
    and [/register-webhook] do to the store, whatever fails, is add tasks
    named [Project Status] and write notes. So no request changes which
    projects are eligible. *)
Theorem requests_only_add_status_tasks_and_notes :
  (forall req, only_grows (handle_webhook req)) /\
  only_grows manual_update /\
  only_grows setup /\
  only_grows update_status /\
  (forall hw r hw',
     register_webhook hw = (r, hw') ->
     w_projects (hw_world hw') = w_projects (hw_world hw) /\
     w_tasks (hw_world hw') = w_tasks (hw_world hw)) /\
  (forall w w',
     store_grows w w' ->
     (forall pid, eligibleb w' pid = eligibleb w pid) /\
     (length (w_tasks w) <= length (w_tasks w'))%nat /\
     (forall t, In t (w_tasks w) ->
        exists t', In t' (w_tasks w') /\ same_but_notes t t')).
Proof.
  split; [exact grows_handle_webhook|].
  split.
  { apply preserves_manual_update;
      [exact store_grows_trans|exact store_grows_same|].
    exact grows_update_project_metrics. }
  split.
  { apply preserves_setup;
      [exact store_grows_trans|exact store_grows_same| |].
    - exact grows_update_project_metrics.
    - exact grows_create_status_task. }
  split.
  { apply preserves_update_status;
      [exact store_grows_trans|exact store_grows_same|].
    exact grows_update_project_metrics. }
  split.
  - intros hw r hw' H. unfold register_webhook, lift in H.
    rewrite get_project_workspace_eq in H. cbn [set_world hw_world] in H.
    unfold webhooks_create in H.
    cbn [hw_world hw_webhooks hw_new_gid set_world] in H.
    world_simpl.
    repeat match type of H with
           | context [if ?x then _ else _] => destruct x
           | context [match ?x with _ => _ end] => destruct x eqn:?
           end;
      inversion H; subst; split; reflexivity.
  - intros w w' (Hp & extra & _ & Hf). split; [|split].
    + intros pid. now apply eligibleb_frame.
    + apply Forall2_length in Hf. rewrite length_app in Hf. lia.
    + intros t Hin. apply (same_but_notes_In _ _ Hf).
      apply in_or_app. now left.
Qed.

(** ** The notes of the other tasks *)

Lemma created_counted_trans (w1 w2 w3 : world) :
  created_counted w1 w2 -> created_counted w2 w3 -> created_counted w1 w3.
Proof. unfold created_counted. lia. Qed.

Lemma created_counted_same (w w' : world) :
  same_store w w' -> created_counted w w'.
Proof.
  intros (_ & Ht & _ & _ & _ & Hc & _). unfold created_counted.
  now rewrite Ht, Hc.
Qed.

Lemma created_counted_pass (pid : string) :
  preserves created_counted (update_project_metrics pid).
Proof.
  apply preserves_update_project_metrics.
  - exact created_counted_trans.
  - exact created_counted_same.
  - intros tid notes.
    apply preserves_api_call;
      [exact created_counted_trans|exact created_counted_same|].
    intros w r w' H. destruct (lookup_task tid w); inversion H; subst;
      unfold created_counted; cbn; rewrite ?length_map; lia.
  - intros projects ws notes.
    apply preserves_api_call;
      [exact created_counted_trans|exact created_counted_same|].
    intros w r w' H. inversion H; subst.
    unfold created_counted. cbn. rewrite length_app. cbn. lia.
Qed.

Lemma gid_determines_task (l : list task) (x y : task) :
  NoDup (map t_gid l) -> In x l -> In y l -> t_gid x = t_gid y -> x = y.
Proof.
  induction l as [|z l IH]; intros Hnd Hx Hy E; [destruct Hx|].
  cbn [map] in Hnd. apply NoDup_cons in Hnd. destruct Hnd as [Hz Hl].
  assert (forall u, In u l -> t_gid u <> t_gid z) as Hne.
  { intros u Hu Eu. apply Hz. rewrite <- Eu.
    apply list_elem_of_In, in_map, Hu. }
  destruct Hx as [<-|Hx], Hy as [<-|Hy].
  - reflexivity.
  - exfalso. apply (Hne y Hy). now symmetry.
  - exfalso. now apply (Hne x Hx).
  - now apply IH.
Qed.

Lemma gids_written (st n : string) (l : list task) :
  map t_gid (map (write_notes st n) l) = map t_gid l.
Proof.
  rewrite map_map. apply map_ext. intros t. apply write_notes_gid.
Qed.

(** The store after a task was possibly added and a note possibly written
    on the tasks with the gid of a status task. *)
Lemma spares_after (pid : string) (w w' : world) (extra : list task) :
  gids_distinct w ->
  w_new_gid w' = w_new_gid w ->
  extra = [] \/ extra = [new_status_task pid w] ->
  w_created w' = (w_created w + length extra)%nat ->
  (w_tasks w' = w_tasks w ++ extra \/
   exists st n t0,
     w_tasks w' = map (write_notes st n) (w_tasks w ++ extra) /\
     In t0 (w_tasks w ++ extra) /\ t_gid t0 = st /\
     t_name t0 = STATUS_TASK_NAME) ->
  gids_distinct w' /\
  forall t, In t (w_tasks w) -> t_name t <> STATUS_TASK_NAME ->
    In t (w_tasks w').
Proof.
  intros Hd Hg Hx Hc Ht.
  assert (map t_gid (w_tasks w') = map t_gid (w_tasks w ++ extra)) as Hgids.
  { destruct Ht as [->|(st & n & t0 & -> & _)]; [reflexivity|].
    apply gids_written. }
  assert (forall n,
            NoDup (map t_gid (w_tasks w ++ extra)
                     ++ map (w_new_gid w)
                          (seq (w_created w + length extra) n))) as Hall.
  { intros n. destruct Hx as [->| ->].
    - rewrite app_nil_r. cbn [length]. rewrite Nat.add_0_r. apply Hd.
    - specialize (Hd (S n)). cbn [seq map] in Hd.
      rewrite map_app. cbn [map new_status_task t_gid length].
      rewrite <- app_assoc. cbn [app].
      now rewrite Nat.add_1_r. }
  split.
  - intros n. rewrite Hgids, Hg, Hc. apply Hall.
  - intros t Hin Hname.
    assert (In t (w_tasks w ++ extra)) as Hin'
      by (apply in_or_app; now left).
    destruct Ht as [->|(st & n & t0 & -> & Hin0 & Hst & Hn0)];
      [exact Hin'|].
    assert (write_notes st n t = t) as Hsame.
    { unfold write_notes.
      destruct (String.eqb (t_gid t) st) eqn:E; [|reflexivity].
      apply String.eqb_eq in E. exfalso. apply Hname.
      assert (t = t0) as ->; [|exact Hn0].
      apply (gid_determines_task (w_tasks w ++ extra));
        [|exact Hin'|exact Hin0|congruence].
      specialize (Hall 0%nat). cbn [seq map] in Hall.
      now rewrite app_nil_r in Hall. }
    rewrite <- Hsame. now apply in_map.
Qed.

Lemma spares_trans (w1 w2 w3 : world) :
  spares_ordinary_tasks w1 w2 -> spares_ordinary_tasks w2 w3 ->
  spares_ordinary_tasks w1 w3.
Proof.
  intros H12 H23 Hd. destruct (H12 Hd) as [Hd2 Hin2].
  destruct (H23 Hd2) as [Hd3 Hin3]. split; [exact Hd3|].
  intros t Ht Hn. apply Hin3; [|exact Hn]. now apply Hin2.
Qed.

Lemma spares_same (w w' : world) :
  same_store w w' -> spares_ordinary_tasks w w'.
Proof.
  intros (_ & Ht & _ & _ & Hg & Hc & _) Hd. split.
  - intros n. rewrite Ht, Hg, Hc. apply Hd.
  - intros t Hin _. now rewrite Ht.
Qed.

Lemma spares_create_status_task (pid : string) :
  preserves spares_ordinary_tasks (create_status_task pid).
Proof.
  intros w r w' H Hd. rewrite create_status_task_eq in H.
  assert (forall w0, same_store w w0 ->
            gids_distinct w0 /\
            forall t, In t (w_tasks w) -> t_name t <> STATUS_TASK_NAME ->
              In t (w_tasks w0)) as Hsame.
  { intros w0 H0. now apply spares_same. }
  destruct (w_faults w (w_calls w));
    [inversion H; subst; apply Hsame; repeat split|].
  destruct (lookup_project pid w) as [p|];
    [|inversion H; subst; apply Hsame; repeat split].
  destruct (String.eqb (p_workspace p) "");
    [inversion H; subst; apply Hsame; repeat split|].
  destruct (w_faults w (S (w_calls w)));
    [inversion H; subst; apply Hsame; repeat split|].
  inversion H; subst.
  apply (spares_after pid w _ [new_status_task pid w]);
    [exact Hd|reflexivity|now right|cbn; lia|now left].
Qed.

Lemma spares_update_project_metrics (pid : string) :
  preserves spares_ordinary_tasks (update_project_metrics pid).
Proof.
  intros w r w' H Hd.
  destruct (update_project_metrics_tasks pid w r w' H)
    as (extra & Hx & Ht).
  destruct (keeps_update_project_metrics pid w r w' H)
    as (_ & _ & _ & Hg & _).
  pose proof (created_counted_pass pid w r w' H) as Hc.
  unfold created_counted in Hc.
  apply (spares_after pid w w' extra); [exact Hd|exact Hg|exact Hx| |].
  - assert (length (w_tasks w') = length (w_tasks w ++ extra)) as Hl.
    { destruct Ht as [->|(_ & st & n & t0 & -> & _)];
        [reflexivity|apply length_map]. }
    rewrite Hl, length_app in Hc. lia.
  - destruct Ht as [Ht|(_ & Ht)]; [now left|now right].
Qed.

(** X23. On a store where the gids of the tasks are distinct and the
    service gives fresh gids to the tasks it creates, no request writes on
    a task that is not a status task: after a pass, and after a request on
    [/webhook], [/update], [/setup] or [/update-status], whatever fails,
    every task that is not named [Project Status] is in the store as it
    was, its notes included, and the gids are still distinct. *)
Theorem ordinary_tasks_keep_their_notes :
  (forall pid, preserves spares_ordinary_tasks (update_project_metrics pid))
  /\
  (forall req, preserves spares_ordinary_tasks (handle_webhook req)) /\
  preserves spares_ordinary_tasks manual_update /\
  preserves spares_ordinary_tasks setup /\
  preserves spares_ordinary_tasks update_status.
Proof.
  split; [exact spares_update_project_metrics|].
  split.
  { intros req.
    destruct (header_get "X-Hook-Secret" (req_headers req)) as [secret|]
      eqn:Hh.
    - unfold handle_webhook. rewrite Hh.
      intros w r w' H Hd. inversion H; subst. split; [exact Hd|auto].
    - apply preserves_handle_events; [exact spares_trans| | |exact Hh].
      + exact spares_same.
      + exact spares_update_project_metrics. }
  split.
  { apply preserves_manual_update; [exact spares_trans|exact spares_same|].
    exact spares_update_project_metrics. }
  split.
  { apply preserves_setup; [exact spares_trans|exact spares_same| |].
    - exact spares_update_project_metrics.
    - exact spares_create_status_task. }
  apply preserves_update_status; [exact spares_trans|exact spares_same|].
  exact spares_update_project_metrics.
Qed.

(** The stores of the examples have distinct gids when their tasks have
    and none of them has a gid of the form the service gives. *)
Lemma example_gids_distinct (projects : list project) (tasks : list task)
    (faults : nat -> bool) :
  NoDup (map t_gid tasks) ->
  (forall (t : task) (k : nat),
     In t tasks -> t_gid t <> ("status" +:+ pretty k)%string) ->
  gids_distinct (example_world projects tasks faults).
Proof.
  intros Hnd Hne n. cbn [example_world w_tasks w_new_gid w_created].
  apply NoDup_app. split; [exact Hnd|]. split.
  - intros g Hg Hin.
    apply list_elem_of_In, in_map_iff in Hg. destruct Hg as (t & <- & Ht).
    apply list_elem_of_In, in_map_iff in Hin. destruct Hin as (k & E & _).
    now apply (Hne t k).
  - apply (NoDup_fmap_2 (fun k : nat => ("status" +:+ pretty k)%string)).
    apply NoDup_seq.
Qed.

Lemma ordinary_tasks_keep_their_notes_witness :
  In (example_task "t2" "Roof" "P2" (Some 100%Q) (Some 80%Q))
    (w_tasks
       (snd (handle_webhook manual_request
               (three_project_world (fail_at 15))))).
Proof.
  destruct (handle_webhook manual_request
              (three_project_world (fail_at 15))) as [r w'] eqn:E.
  destruct (proj1 (proj2 ordinary_tasks_keep_their_notes)
              manual_request _ _ _ E) as [_ H].
  - apply example_gids_distinct.
    + apply (bool_decide_unpack _). vm_compute. reflexivity.
    + intros t k Hin Eg. cbn in Hin.
      repeat (destruct Hin as [<-|Hin]; [cbn in Eg; discriminate|]).
      destruct Hin.
  - apply H.
    + cbn. tauto.
    + apply String.eqb_neq. reflexivity.
Defined.
